(** * hfppl: the particle state machine and its distributions

    A shallow embedding of [hfppl/model.py], [hfppl/distributions/geometric.py]
    and [hfppl/distributions/tokencategorical.py].

    - Python [float]s are IEEE 754 binary64 numbers: they are modelled by
      Rocq's primitive floats, whose operations are the same binary64
      operations (round to nearest, ties to even), with [neg_infinity] for
      [float('-inf')].
    - Python [int]s are modelled by [Z], strings by [string], [bool] by [bool].
    - A method that mutates [self] is a function on the record of the
      object's attributes; a method that may raise, or that calls into a
      distribution, lives in a state-and-exception monad.
    - An [async def] is a resumption: a tree whose nodes are the [await]
      points of the body.
    - For cloning, an object is its [__dict__] over a heap of mutable
      objects, so that sharing a reference and copying differ. *)

From Stdlib Require Import ZArith Floats String List Bool Lia.
From stdpp Require Import base option list gmap strings.
Import ListNotations.

Local Open Scope string_scope.
Local Open Scope Z_scope.

(** ** Floating point *)

(** [float(z)] for a Python [int]: the nearest binary64 number. *)
Definition Z2float (z : Z) : float :=
  SF2Prim (binary_normalize prec emax z 0 false).

(** Neither an infinity nor a NaN: a "real" in the sense of the data model. *)
Definition is_finite (x : float) : bool :=
  match Prim2SF x with
  | S754_zero _ | S754_finite _ _ _ => true
  | S754_infinity _ | S754_nan => false
  end.

(** A log-space weight: a finite number or minus infinity (log 0). *)
Definition is_log_weight (x : float) : bool :=
  match Prim2SF x with
  | S754_zero _ | S754_finite _ _ _ | S754_infinity true => true
  | S754_infinity false | S754_nan => false
  end.

(** ** Exceptions and the state-and-exception monad *)

(** The exceptions the modelled code raises (messages are left out). *)
Inductive exc : Set :=
| TypeError
| NotImplementedError
| RuntimeError
| IndexError
| NameError
| OverflowError.

Inductive res (A : Type) : Type :=
| Ok (a : A)
| Raise (e : exc).
Arguments Ok {A} a.
Arguments Raise {A} e.

(** A computation over a mutable state [S]: the state survives an exception,
    as the attributes of a Python object do. *)
Definition M (S A : Type) : Type := S -> res A * S.

Definition ret {S A} (a : A) : M S A := fun s => (Ok a, s).

Definition raise {S A} (e : exc) : M S A := fun s => (Raise e, s).

Definition bind {S A B} (c : M S A) (k : A -> M S B) : M S B :=
  fun s =>
    match c s with
    | (Ok a, s') => k a s'
    | (Raise e, s') => (Raise e, s')
    end.

(** A result computed without touching the state. *)
Definition lift_res {S A} (r : res A) : M S A := fun s => (r, s).

(** The monad operations, under stdpp's notations [x ← c; k] and [c;; k]. *)
#[global] Instance M_ret {S} : MRet (M S) := @ret S.
#[global] Instance M_bind {S} : MBind (M S) := fun A B k c => bind c k.

(** ** The Model class *)

Section ModelDefs.

(** The attributes a subclass adds to the particle. *)
Context {St : Type}.

(** The attributes [Model.__init__] creates, next to the subclass's own. *)
Record Model : Type := mkModel {
  weight : float;
  finished : bool;
  mode : string;
  beam_idx : Z;
  force_eos : bool;
  twist_amount : float;
  subclass_state : St
}.

Definition set_weight (w : float) (self : Model) : Model :=
  mkModel w (finished self) (mode self) (beam_idx self) (force_eos self)
          (twist_amount self) (subclass_state self).

Definition set_finished (b : bool) (self : Model) : Model :=
  mkModel (weight self) b (mode self) (beam_idx self) (force_eos self)
          (twist_amount self) (subclass_state self).

Definition set_twist_amount (t : float) (self : Model) : Model :=
  mkModel (weight self) (finished self) (mode self) (beam_idx self)
          (force_eos self) t (subclass_state self).

(** [Model.__init__]: the six attributes of a new particle. *)
Definition Model_init (st : St) : Model :=
  mkModel 0%float false "sample" 0 false 0%float st.

(** [Model.reset]. *)
Definition reset (self : Model) : Model :=
  mkModel 0%float false "sample" 0 false 0%float (subclass_state self).

(** [Model.score]: [self.weight += score]. *)
Definition score (amount : float) (self : Model) : Model :=
  set_weight (weight self + amount)%float self.

(** [Model.twist]: [self.twist_amount += amt; self.score(amt)]. *)
Definition twist (amt : float) (self : Model) : Model :=
  score amt (set_twist_amount (twist_amount self + amt)%float self).

(** [Model.untwist]: [self.score(-self.twist_amount); self.twist_amount = 0.0]. *)
Definition untwist (self : Model) : Model :=
  set_twist_amount 0%float (score (- twist_amount self)%float self).

(** [Model.finish]: [self.untwist(); self.finished = True]. *)
Definition finish (self : Model) : Model :=
  set_finished true (untwist self).

(** [Model.done_stepping]. *)
Definition done_stepping (self : Model) : bool := finished self.

(** [Model.step], as inherited by a subclass that does not override it. *)
Definition step : M Model unit :=
  fun self =>
    if negb (done_stepping self) then raise NotImplementedError self
    else ret tt self.

(** [Model.start]: [pass]. *)
Definition start (self : Model) : Model := self.

(** [Model.condition]. *)
Definition condition (b : bool) (self : Model) : Model :=
  if negb b then finish (score neg_infinity self) else self.

End ModelDefs.
Arguments Model St : clear implicits.

(** ** Distributions *)

(** What a Python call [d.argmax(k)] hands back: the calling code unpacks it
    with [x, w = ...], which only a pair survives. *)
Inductive argmax_value (V : Type) : Type :=
| Pair (x : V) (w : float)
| Single (x : V).
Arguments Pair {V} x w.
Arguments Single {V} x.

Module Distribution.

(** Modelled from the spec: the base class [Distribution] of
    [hfppl/distributions/distribution.py] is not among the sources. The
    spec requires of a distribution [sample() -> (value, log_prob)],
    [log_prob(value) -> real], [argmax(k)] and the asynchronous
    [sample_async] and [log_prob_async]. [W] is the state a distribution
    works on: the random generator and whatever else the distribution
    reads or changes; a distribution never touches the particle. *)
Record t (V W : Type) : Type := mk {
  sample : M W (V * float);
  log_prob : V -> M W float;
  argmax : Z -> M W (argmax_value V);
  sample_async : M W (V * float);
  log_prob_async : V -> M W float
}.
Arguments mk {V W}.
Arguments sample {V W}.
Arguments log_prob {V W}.
Arguments argmax {V W}.
Arguments sample_async {V W}.
Arguments log_prob_async {V W}.

End Distribution.

(** ** Coroutines *)

Section Coroutines.

Context {St W : Type}.

(** An [async def] method of the particle, run up to its next [await]: it
    has returned or raised ([Done]), it is suspended on an awaitable that
    the event loop resolves over [W] ([Await]), or it is about to touch
    [self] ([Self]). *)
Inductive Coro (A : Type) : Type :=
| Done (r : res A)
| Await {T : Type} (aw : M W T) (k : T -> Coro A)
| Self {T : Type} (f : Model St -> T * Model St) (k : T -> Coro A).
Arguments Done {A}.
Arguments Await {A T}.
Arguments Self {A T}.

Fixpoint co_bind {A B} (c : Coro A) (k : A -> Coro B) : Coro B :=
  match c with
  | Done (Ok a) => k a
  | Done (Raise e) => Done (Raise e)
  | Await aw k' => Await aw (fun t => co_bind (k' t) k)
  | Self f k' => Self f (fun t => co_bind (k' t) k)
  end.

(** [await aw]. *)
Definition await {T} (aw : M W T) : Coro T :=
  Await aw (fun t => Done (Ok t)).

(** A synchronous method of [self], called from a coroutine. *)
Definition on_self (f : Model St -> Model St) : Coro unit :=
  Self (fun self => (tt, f self)) (fun _ => Done (Ok tt)).

(** The event loop driving one coroutine to its end, every awaitable
    resolved as soon as it is awaited; an awaitable that raises throws
    into the coroutine, which has no handler. *)
Fixpoint run_until_complete {A} (c : Coro A) : M (Model St * W) A :=
  fun '(self, w) =>
    match c with
    | Done r => (r, (self, w))
    | Await aw k =>
        match aw w with
        | (Ok t, w') => run_until_complete (k t) (self, w')
        | (Raise e, w') => (Raise e, (self, w'))
        end
    | Self f k =>
        let '(t, self') := f self in run_until_complete (k t) (self', w)
    end.

(** How many times the coroutine suspends when the event loop runs it from
    [(self, w)]. *)
Fixpoint suspensions {A} (c : Coro A) (self : Model St) (w : W) : nat :=
  match c with
  | Done _ => O
  | Await aw k =>
      match aw w with
      | (Ok t, w') => S (suspensions (k t) self w')
      | (Raise _, _) => 1%nat
      end
  | Self f k => let '(t, self') := f self in suspensions (k t) self' w
  end.

End Coroutines.
Arguments Coro St W A : clear implicits.
Arguments Done {St W A}.
Arguments Await {St W A T}.
Arguments Self {St W A T}.

#[global] Instance Coro_ret {St W} : MRet (Coro St W) := fun A a => Done (Ok a).
#[global] Instance Coro_bind {St W} : MBind (Coro St W) :=
  fun A B k c => co_bind c k.

(** ** The methods of Model that query a distribution *)

Section ModelSampling.

Context {St V W : Type}.

Local Abbreviation dist := (Distribution.t V W).

(** A call into a distribution from a method of the particle. *)
Definition call {A} (c : M W A) : M (Model St * W) A :=
  fun '(self, w) => let '(r, w') := c w in (r, (self, w')).

(** A synchronous method of [self] that returns [None]. *)
Definition self_do (f : Model St -> Model St) : M (Model St * W) unit :=
  fun '(self, w) => (Ok tt, (f self, w)).

(** Reading an attribute of [self]. *)
Definition self_get {A} (f : Model St -> A) : M (Model St * W) A :=
  fun '(self, w) => (Ok (f self), (self, w)).

(** [x, w = r]: unpacking what [argmax] returned. *)
Definition unpack2 {S} (r : argmax_value V) : M S (V * float) :=
  match r with
  | Pair x w => mret (x, w)
  | Single _ => raise TypeError
  end.

(** [Model.observe]: [self.score(dist.log_prob(x)); return x]. *)
Definition observe (d : dist) (x : V) : M (Model St * W) V :=
  p ← call (Distribution.log_prob d x);
  self_do (score p);;
  mret x.

(** [Model.do]: [_ = dist.log_prob(x); return x]. *)
Definition do (d : dist) (x : V) : M (Model St * W) V :=
  call (Distribution.log_prob d x);;
  mret x.

(** [Model.sample]. *)
Definition sample (d : dist) (proposal : option dist) : M (Model St * W) V :=
  m ← self_get mode;
  if String.eqb m "beam" then
    let d' := match proposal with None => d | Some prop => prop end in
    idx ← self_get beam_idx;
    r ← call (Distribution.argmax d' idx);
    '(x, w) ← unpack2 r;
    match proposal with
    | Some _ => p ← call (Distribution.log_prob d x); self_do (score p)
    | None => self_do (score w)
    end;;
    mret x
  else
    match proposal with
    | None =>
        '(x, _) ← call (Distribution.sample d);
        mret x
    | Some prop =>
        '(x, q) ← call (Distribution.sample prop);
        p ← call (Distribution.log_prob d x);
        self_do (score (p - q)%float);;
        mret x
    end.

(** [Model.observe_async]. *)
Definition observe_async (d : dist) (x : V) : Coro St W V :=
  p ← await (Distribution.log_prob_async d x);
  on_self (score p);;
  mret x.

(** [Model.sample_async]. *)
Definition sample_async (d : dist) (proposal : option dist) : Coro St W V :=
  match proposal with
  | None =>
      '(x, _) ← await (Distribution.sample_async d);
      mret x
  | Some prop =>
      '(x, q) ← await (Distribution.sample_async prop);
      p ← await (Distribution.log_prob_async d x);
      on_self (score (p - q)%float);;
      mret x
  end.

End ModelSampling.

(** ** Python sequences *)

(** [l[i]] on a Python sequence: a negative index counts from the end, an
    index out of range raises [IndexError]. *)
Definition py_index {A} (l : list A) (i : Z) : res A :=
  let n := Z.of_nat (length l) in
  let j := if i <? 0 then n + i else i in
  if (j <? 0) || (n <=? j) then Raise IndexError
  else match nth_error l (Z.to_nat j) with
       | Some a => Ok a
       | None => Raise IndexError
       end.

(** ** Names a module has to import *)

(** What the name [np] stands for in a module that imports numpy: the
    functions of numpy the code calls. numpy is not part of the repository;
    [W] holds the state of its random generator. *)
Record Numpy (W : Type) : Type := mkNumpy {
  np_log : float -> float;
  np_random_geometric : float -> M W Z
}.
Arguments mkNumpy {W}.
Arguments np_log {W}.
Arguments np_random_geometric {W}.

(** What the name [torch] stands for in a module that imports it:
    [torch.argsort], which may refuse its argument. *)
Record Torch : Type := mkTorch {
  torch_argsort : list float -> res (list Z)
}.

(** The evaluation of a global name: [NameError] when the module has bound
    nothing to it. *)
Definition global {S A} (name : option A) : M S A :=
  match name with
  | Some a => ret a
  | None => raise NameError
  end.

(** A Python [int] as an operand of float arithmetic: an [int] too large to
    be a binary64 number raises [OverflowError]. *)
Definition float_of_int (z : Z) : res float :=
  if is_finite (Z2float z) then Ok (Z2float z) else Raise OverflowError.

(** ** distributions/geometric.py *)

Module Geometric.

(** [Geometric.__init__(self, p)]. *)
Record t : Type := mk { p : float }.

(** [Geometric.argmax]: [return idx - 1], with the source's comment
    "Most likely outcome is 0, then 1, etc."; it uses no global name. *)
Definition argmax (self : t) (idx : Z) : Z := idx - 1.

Section Globals.

Context {W : Type}.

(** What the global name [np] of the module is bound to when a method
    runs: the methods use [np], and the module has to have imported it. *)
Variable np : option (Numpy W).

(** [Geometric.log_prob]:
    [np.log(self.p) + np.log(1 - self.p)*(value - 1)]. *)
Definition log_prob_in (self : t) (value : Z) : M W float :=
  numpy ← global np;
  k ← lift_res (float_of_int (value - 1));
  mret (np_log numpy (p self) + np_log numpy (1 - p self) * k)%float.

(** [Geometric.sample]:
    [n = np.random.geometric(self.p); return n, self.log_prob(n)]. *)
Definition sample_in (self : t) : M W (Z * float) :=
  numpy ← global np;
  n ← np_random_geometric numpy (p self);
  lp ← log_prob_in self n;
  mret (n, lp).

(** A [Geometric] as the distribution object [Model.sample] is handed.
    The asynchronous methods are the base class's, which the spec gives
    the value semantics of the synchronous ones. *)
Definition as_distribution_in (self : t) : Distribution.t Z W :=
  Distribution.mk
    (sample_in self)
    (log_prob_in self)
    (fun idx => mret (Single (argmax self idx)))
    (sample_in self)
    (log_prob_in self).

End Globals.

(** [geometric.py] imports [Distribution] and nothing else: in the module
    as it is, the name [np] is bound to nothing. *)
Definition module_np {W : Type} : option (Numpy W) := None.

(** The methods of the module as it is. *)
Definition log_prob {W : Type} (self : t) (value : Z) : M W float :=
  log_prob_in module_np self value.

Definition sample {W : Type} (self : t) : M W (Z * float) :=
  sample_in module_np self.

Definition as_distribution {W : Type} (self : t) : Distribution.t Z W :=
  as_distribution_in module_np self.

(** The same class in a module that has bound [np] to [numpy]. *)
Definition with_numpy {W : Type} (numpy : Numpy W) (self : t)
  : Distribution.t Z W :=
  as_distribution_in (Some numpy) self.

End Geometric.

(** ** distributions/tokencategorical.py *)

Module TokenCategorical.

(** What the class reads of the language model: [lm.tokenizer.vocab_size]
    and [lm.tokenizer.convert_ids_to_tokens]. *)
Record LM : Type := mkLM {
  vocab_size : Z;
  convert_ids_to_tokens : Z -> string
}.

(** [Token(lm, token_id, token_str)] of [hfppl/llms.py]. *)
Record Token : Type := mkToken {
  token_lm : LM;
  token_id : Z;
  token_str : string
}.

Record t : Type := mk {
  lm : LM;
  log_probs : list float
}.

Section WithUtil.

(** [log_softmax] of [hfppl/util.py] is not among the sources and is a
    parameter, as are numpy's [np.exp] and [np.random.choice]. *)
Context {W : Type}.
Variable log_softmax : list float -> list float.
Variable np_exp : list float -> list float.
Variable np_random_choice : Z -> list float -> M W Z.

(** [TokenCategorical.__init__]: the object exists only if the
    constructor does not raise. *)
Definition init (lm : LM) (logits : list float) : res t :=
  let self_log_probs := log_softmax logits in
  if negb (vocab_size lm =? Z.of_nat (length logits))
  then Raise RuntimeError
  else Ok (mk lm self_log_probs).

(** [TokenCategorical.log_prob]: [self.log_probs[value.token_id]]. *)
Definition log_prob (self : t) (value : Token) : res float :=
  py_index (log_probs self) (token_id value).

(** [TokenCategorical.sample]. *)
Definition sample (self : t) : M W (Token * float) :=
  n ← np_random_choice (Z.of_nat (length (log_probs self)))
                       (np_exp (log_probs self));
  lp ← lift_res (py_index (log_probs self) n);
  mret (mkToken (lm self) n (convert_ids_to_tokens (lm self) n), lp).

End WithUtil.

(** [TokenCategorical.argmax]:
    [tok = torch.argsort(self.log_probs)[-idx]], then the token and
    [self.log_probs[tok]]; [torch] is what the global name of the module is
    bound to. *)
Definition argmax_in (torch : option Torch) (self : t) (idx : Z)
  : res (Token * float) :=
  match torch with
  | None => Raise NameError
  | Some th =>
      match torch_argsort th (log_probs self) with
      | Raise e => Raise e
      | Ok order =>
          match py_index order (- idx) with
          | Raise e => Raise e
          | Ok tok =>
              match py_index (log_probs self) tok with
              | Raise e => Raise e
              | Ok lp =>
                  Ok (mkToken (lm self) tok
                        (convert_ids_to_tokens (lm self) tok), lp)
              end
          end
      end
  end.

(** [tokencategorical.py] imports [Distribution], [log_softmax], [Token] and
    [numpy as np]: in the module as it is, the name [torch] is bound to
    nothing. *)
Definition module_torch : option Torch := None.

(** The method of the module as it is. *)
Definition argmax (self : t) (idx : Z) : res (Token * float) :=
  argmax_in module_torch self idx.

End TokenCategorical.

(** ** Cloning: Model.__deepcopy__ *)

(** Python values without identity of their own: [copy.deepcopy] returns
    them as they are. *)
Inductive atom : Type :=
| PyNone
| PyBool (b : bool)
| PyInt (z : Z)
| PyFloat (f : float)
| PyStr (s : string).

(** The address of a mutable object. *)
Definition loc : Type := nat.

(** What an attribute holds: an atom, or a reference to a mutable object. *)
Inductive value : Type :=
| Atom (a : atom)
| Ref (l : loc).

(** An object's [__dict__]: attribute names in insertion order. *)
Definition pydict : Type := list (string * value).

Fixpoint getattr (d : pydict) (k : string) : option value :=
  match d with
  | [] => None
  | (k', v) :: rest => if String.eqb k' k then Some v else getattr rest k
  end.

(** [setattr(obj, k, v)]: a bound name is rebound in place, a new one is
    added at the end. *)
Fixpoint setattr (d : pydict) (k : string) (v : value) : pydict :=
  match d with
  | [] => [(k, v)]
  | (k', v') :: rest =>
      if String.eqb k' k then (k', v) :: rest else (k', v') :: setattr rest k v
  end.

(** The [__dict__] of a particle whose class sets its own attributes after
    calling [Model.__init__]. *)
Definition Model_dict (self : Model pydict) : pydict :=
  ([("weight", Atom (PyFloat (weight self)));
   ("finished", Atom (PyBool (finished self)));
   ("mode", Atom (PyStr (mode self)));
   ("beam_idx", Atom (PyInt (beam_idx self)));
   ("force_eos", Atom (PyBool (force_eos self)));
   ("twist_amount", Atom (PyFloat (twist_amount self)))]
   ++ subclass_state self)%list.

Section Deepcopy.

(** The contents of a mutable object (a list, a dict, a tensor): objects
    are flat, their contents hold no references to other objects. *)
Context {Obj : Type}.

(** [copy.deepcopy(v, memo)] of the Python library, at the granularity of
    objects: an atom is returned as it is; an object already in [memo] is
    answered from it; any other object is copied to a new address, which
    [memo] records. A reference to no object does not arise in Python and
    is returned unchanged. *)
Definition copy_deepcopy (v : value) (memo : gmap loc loc) (h : gmap loc Obj)
  : value * gmap loc loc * gmap loc Obj :=
  match v with
  | Atom _ => (v, memo, h)
  | Ref l =>
      match memo !! l with
      | Some l' => (Ref l', memo, h)
      | None =>
          match h !! l with
          | Some o =>
              let l' := fresh (dom h) in
              (Ref l', <[l := l']> memo, <[l' := o]> h)
          | None => (v, memo, h)
          end
      end
  end.

(** [Model.immutable_properties]: [return set()]. *)
Definition immutable_properties : gset string := ∅.

(** The loop of [Model.__deepcopy__] over [self.__dict__.items()]. *)
Fixpoint deepcopy_items (immutable : gset string) (items : pydict)
    (cpy : pydict) (memo : gmap loc loc) (h : gmap loc Obj)
  : pydict * gmap loc loc * gmap loc Obj :=
  match items with
  | [] => (cpy, memo, h)
  | (k, v) :: rest =>
      if decide (k ∈ immutable)
      then deepcopy_items immutable rest (setattr cpy k v) memo h
      else
        let '(v', memo', h') := copy_deepcopy v memo h in
        deepcopy_items immutable rest (setattr cpy k v') memo' h'
  end.

(** [Model.__deepcopy__(self, memo)]: [cpy] starts as an object without
    attributes; [immutable] is what the particle's own
    [immutable_properties()] returns. *)
Definition Model_deepcopy (immutable : gset string) (self : pydict)
    (memo : gmap loc loc) (h : gmap loc Obj)
  : pydict * gmap loc loc * gmap loc Obj :=
  deepcopy_items immutable self [] memo h.

(** The fork operation, [copy.deepcopy(particle)]: a new memo. *)
Definition fork (immutable : gset string) (self : pydict) (h : gmap loc Obj)
  : pydict * gmap loc Obj :=
  let '(cpy, _, h') := Model_deepcopy immutable self ∅ h in (cpy, h').

(** What an attribute value stands for in a heap: the atom, or the
    contents of the object it refers to. *)
Definition deref (h : gmap loc Obj) (v : value) : option (atom + Obj) :=
  match v with
  | Atom a => Some (inl a)
  | Ref l => inr <$> h !! l
  end.

(** What reading attribute [k] of the object with dict [d] gives in [h]. *)
Definition read (h : gmap loc Obj) (d : pydict) (k : string)
  : option (atom + Obj) :=
  v ← getattr d k; deref h v.

(** An in-place mutation of the object at [l]: new contents. *)
Definition mutate (l : loc) (o : Obj) (h : gmap loc Obj) : gmap loc Obj :=
  <[l := o]> h.

(** Every reference of the dict is to an object of the heap. *)
Definition closed (h : gmap loc Obj) (d : pydict) : bool :=
  forallb (fun kv : string * value =>
             match kv.2 with
             | Atom _ => true
             | Ref l => bool_decide (is_Some (h !! l))
             end) d.

(** No attribute name occurs twice, as in every Python dict. *)
Definition unique_names (d : pydict) : bool := bool_decide (NoDup d.*1).

(** The memo during a fork of a particle over the heap [h0]: the heap has
    only grown, and the memo sends objects of [h0] to copies made since,
    each with the contents of its original. *)
Definition memo_inv (h0 : gmap loc Obj) (memo : gmap loc loc)
    (h : gmap loc Obj) : Prop :=
  h0 ⊆ h /\
  forall l l', memo !! l = Some l' ->
    is_Some (h0 !! l) /\ h0 !! l' = None /\ h !! l' = h0 !! l.

(** [v'] is the copy of [v] that the memo records. *)
Definition copied (memo : gmap loc loc) (v v' : value) : Prop :=
  match v with
  | Atom a => v' = Atom a
  | Ref l => exists l', v' = Ref l' /\ memo !! l = Some l'
  end.

End Deepcopy.

(** ** Concrete inputs *)

(** A distribution over the integers that always draws [x] with
    log-probability [lp], gives every value the log-probability [lp] and
    answers [argmax] with the pair [(x, lp)]; it has no state. *)
Definition point_dist (x : Z) (lp : float) : Distribution.t Z unit :=
  Distribution.mk
    (mret (x, lp)) (fun _ => mret lp) (fun _ => mret (Pair x lp))
    (mret (x, lp)) (fun _ => mret lp).

(** [np.log] at the two arguments of the Geometric(0.5) scenario:
    [np.log(0.5)] is -0.6931471805599453 and [np.log(0.125)] is
    -2.0794415416798357. *)
Definition np_log_table (x : float) : float :=
  if PrimFloat.eqb x 0.5 then (-0x1.62e42fefa39efp-1)%float
  else if PrimFloat.eqb x 0.125 then (-0x1.0a2b23f3bab73p+1)%float
  else nan.

(** A generator whose every draw is 1. *)
Definition always_one (p : float) : M unit Z := mret 1.

(** A numpy with that logarithm and that generator. *)
Definition numpy_table : Numpy unit := mkNumpy np_log_table always_one.

(** A language model with a vocabulary of three tokens. *)
Definition lm3 : TokenCategorical.LM :=
  TokenCategorical.mkLM 3 (fun tok =>
    if tok =? 0 then "a" else if tok =? 1 then "b" else "c").

(** The token distribution with probabilities 0.125, 0.625 and 0.25: its
    [log_probs] are their logarithms, token 1 being the most likely. *)
Definition cat3 : TokenCategorical.t :=
  TokenCategorical.mk lm3
    [(-0x1.0a2b23f3bab73p+1)%float; (-0x1.e148a1a2726cep-2)%float;
     (-0x1.62e42fefa39efp+0)%float].

(** A particle in beam mode, as a beam search sets it up. *)
Definition beam_particle : Model unit :=
  mkModel 0%float false "beam" 0 false 0%float tt.

(** A new particle with a context, a token list and a second name for the
    token list, over a heap of two lists. *)
Definition heap2 : gmap loc (list Z) := <[1%nat := [1; 2]]> (<[0%nat := [7]]> ∅).

Definition particle4 : pydict :=
  Model_dict
    (Model_init [("ctx", Ref 0%nat); ("toks", Ref 1%nat); ("alias", Ref 1%nat)]).

(** ** Programs of weighting primitives *)

(** One call of a weighting primitive, as the body of a [step] issues it. *)
Inductive primitive : Type :=
| Score (amount : float)
| Twist (amt : float)
| Untwist
| Finish
| Condition (b : bool).

Definition exec_primitive {St : Type} (c : primitive) (self : Model St)
  : Model St :=
  match c with
  | Score amount => score amount self
  | Twist amt => twist amt self
  | Untwist => untwist self
  | Finish => finish self
  | Condition b => condition b self
  end.

(** The calls of a list one after the other, on the same particle. *)
Definition exec_primitives {St : Type} (cs : list primitive) (self : Model St)
  : Model St :=
  fold_left (fun s c => exec_primitive c s) cs self.

(** The pending twist can be taken back from a weight of minus infinity:
    [-t] is a real or minus infinity, that is, [t] is neither NaN nor minus
    infinity. *)
Definition can_untwist (t : float) : bool := is_log_weight (- t).

(** The argument of the call, if it has one, is finite. *)
Definition finite_argument (c : primitive) : bool :=
  match c with
  | Score a | Twist a => is_finite a
  | Untwist | Finish | Condition _ => true
  end.

(** The pending twist can be taken back in every state the program goes
    through. *)
Fixpoint twist_stays {St : Type} (cs : list primitive) (self : Model St)
  : bool :=
  can_untwist (twist_amount self) &&
  match cs with
  | [] => true
  | c :: cs' => twist_stays cs' (exec_primitive c self)
  end.

(** A distribution whose asynchronous methods are its synchronous ones. *)
Definition async_is_sync {V W : Type} (d : Distribution.t V W) : Prop :=
  Distribution.sample_async d = Distribution.sample d /\
  Distribution.log_prob_async d = Distribution.log_prob d.

(** The float is [-0.0]. *)
Definition is_neg_zero (x : float) : bool :=
  match Prim2SF x with
  | S754_zero true => true
  | _ => false
  end.

(** [values[i]] for an index [i] in range. *)
Definition value_at (values : list float) (i : Z) : float :=
  nth (Z.to_nat i) values nan.

(** The copies a memo records are objects of the heap, and no two objects
    have the same copy. *)
Definition memo_injective {Obj : Type} (memo : gmap loc loc)
    (h : gmap loc Obj) : Prop :=
  (forall l l', memo !! l = Some l' -> is_Some (h !! l')) /\
  (forall l1 l2 l', memo !! l1 = Some l' -> memo !! l2 = Some l' -> l1 = l2).

(** Nothing of the dict needs a copy: every attribute is named in
    [immutable] or holds an atom. *)
Definition nothing_to_copy (immutable : gset string) (d : pydict) : bool :=
  forallb (fun kv : string * value =>
             bool_decide (kv.1 ∈ immutable) ||
             match kv.2 with Atom _ => true | Ref _ => false end) d.

(** * Properties *)

(** ** Binary64 facts used below *)

Ltac float_neq :=
  let H := fresh "H" in
  intro H; apply FloatAxioms.Leibniz.eqb_spec in H; vm_compute in H; discriminate H.

Lemma add_neg_zero (x : float) : (x + - 0)%float = x.
Proof.
  apply Prim2SF_inj. rewrite add_spec, opp_spec.
  change (Prim2SF 0) with (S754_zero false). cbn [SFopp negb].
  destruct (Prim2SF x) as [s | s | | s m e]; try reflexivity.
  destruct s; reflexivity.
Qed.

Lemma Prim2SF_neg_infinity : Prim2SF neg_infinity = S754_infinity true.
Proof. reflexivity. Qed.

Lemma neg_infinity_add (x : float) :
  Prim2SF x <> S754_nan -> Prim2SF x <> S754_infinity false ->
  (neg_infinity + x)%float = neg_infinity.
Proof.
  intros Hnan Hinf. apply Prim2SF_inj. rewrite add_spec, Prim2SF_neg_infinity.
  destruct (Prim2SF x) as [s | [] | | s m e]; try reflexivity; congruence.
Qed.

Lemma add_neg_infinity (x : float) :
  is_log_weight x = true -> (x + neg_infinity)%float = neg_infinity.
Proof.
  unfold is_log_weight. intros H. apply Prim2SF_inj.
  rewrite add_spec, Prim2SF_neg_infinity.
  destruct (Prim2SF x) as [s | [] | | s m e]; try reflexivity; discriminate H.
Qed.

Lemma neg_infinity_add_finite (x : float) :
  is_finite x = true -> (neg_infinity + x)%float = neg_infinity.
Proof.
  unfold is_finite. intros H.
  apply neg_infinity_add; destruct (Prim2SF x); congruence.
Qed.

Lemma is_finite_opp (x : float) : is_finite (- x) = is_finite x.
Proof. unfold is_finite. rewrite opp_spec. destruct (Prim2SF x); reflexivity. Qed.

Lemma cond_Zopp_cancel (s : bool) (z : Z) :
  (cond_Zopp s z + cond_Zopp (negb s) z)%Z = 0%Z.
Proof. destruct s; cbn; lia. Qed.

(** [y - y] is [+0.0] for every finite [y]. *)
Lemma add_opp_diag (y : float) : is_finite y = true -> (y + - y)%float = 0%float.
Proof.
  unfold is_finite. intros H. apply Prim2SF_inj. rewrite add_spec, opp_spec.
  change (Prim2SF 0) with (S754_zero false).
  destruct (Prim2SF y) as [s | s | | s m e]; try discriminate H.
  - destruct s; reflexivity.
  - cbn [SFopp]. unfold SF64add, SFadd.
    rewrite Z.min_id, cond_Zopp_cancel. reflexivity.
Qed.

(** [0.0 + a] is finite when [a] is. *)
Lemma is_finite_zero_add (a : float) :
  is_finite a = true -> is_finite (0 + a) = true.
Proof.
  unfold is_finite. rewrite add_spec. change (Prim2SF 0) with (S754_zero false).
  destruct (Prim2SF a) as [s | s | | s m e]; try discriminate; try reflexivity.
  destruct s; reflexivity.
Qed.

(** ** The weighting algebra *)

Section ModelFacts.

Context {St : Type}.
Implicit Types self : Model St.

Lemma weight_score a self : weight (score a self) = (weight self + a)%float.
Proof. reflexivity. Qed.

Lemma weight_twist a self : weight (twist a self) = (weight self + a)%float.
Proof. reflexivity. Qed.

Lemma weight_untwist self :
  weight (untwist self) = (weight self + - twist_amount self)%float.
Proof. reflexivity. Qed.

Lemma weight_finish self :
  weight (finish self) = (weight self + - twist_amount self)%float.
Proof. reflexivity. Qed.

Lemma twist_amount_finish self : twist_amount (finish self) = 0%float.
Proof. reflexivity. Qed.

(** A particle without a pending twist is left as it is by [untwist]. *)
Lemma untwist_no_twist self : twist_amount self = 0%float -> untwist self = self.
Proof.
  destruct self as [w f m b e t st]. cbn. intros ->.
  unfold untwist, score, set_twist_amount, set_weight. cbn.
  now rewrite add_neg_zero.
Qed.

End ModelFacts.

(** C10. [reset()] puts the six core attributes back to the values
    [Model.__init__] gives them: weight 0.0, finished False, mode "sample",
    beam_idx 0, force_eos False, twist_amount 0.0; the particle's core state
    is that of a newly constructed Model, whatever state it was in. *)
Theorem reset_restores_init {St : Type} (self : Model St) :
  weight (reset self) = 0%float /\
  finished (reset self) = false /\
  mode (reset self) = "sample" /\
  beam_idx (reset self) = 0 /\
  force_eos (reset self) = false /\
  twist_amount (reset self) = 0%float /\
  reset self = Model_init (subclass_state self).
Proof. repeat split. Qed.

(** C9. [finish()] is idempotent: after one call the particle has
    twist_amount 0.0 and finished True, and a second call changes nothing,
    neither the weight nor any other attribute. *)
Theorem finish_idempotent {St : Type} (self : Model St) :
  twist_amount (finish self) = 0%float /\
  finished (finish self) = true /\
  finish (finish self) = finish self.
Proof.
  split; [reflexivity | split; [reflexivity |]].
  unfold finish at 1. rewrite untwist_no_twist by reflexivity.
  reflexivity.
Qed.

(** C5, as the code has it. The inherited [step()] raises
    [NotImplementedError] exactly when [done_stepping()] is false; on a
    particle that is done it returns [None] and changes nothing. *)
Theorem step_raises_iff_not_done {St : Type} (self : Model St) :
  step self =
    if done_stepping self then (Ok tt, self)
    else (Raise NotImplementedError, self).
Proof. unfold step. destruct (done_stepping self); reflexivity. Qed.

(** C5, the claim refuted: on a finished particle whose class does not
    override [step], [step()] returns silently instead of raising. *)
Lemma step_after_done_returns :
  let self := finish (Model_init tt) in
  done_stepping self = true /\
  step self = (Ok tt, self) /\
  (forall e, step self <> (Raise e, self)).
Proof. cbn. repeat split. intros e H. discriminate H. Qed.

(** C2, as the code has it. [twist(amt)] followed by [untwist()] removes
    every pending twist, not only [amt]: twist_amount becomes 0.0 and weight
    becomes [(weight + amt) - (twist_amount + amt)] in binary64 arithmetic,
    the other attributes staying as they are. So weight and twist_amount
    are both exactly as before if and only if twist_amount was 0.0 (no
    twist pending) and [(weight + amt) - (0.0 + amt)] evaluates to weight;
    it does, in particular, whenever weight is 0.0 and [amt] is finite. *)
Theorem twist_untwist {St : Type} (self : Model St) (amt : float) :
  let self' := untwist (twist amt self) in
  twist_amount self' = 0%float /\
  weight self' = (weight self + amt + - (twist_amount self + amt))%float /\
  (finished self', mode self', beam_idx self', force_eos self',
   subclass_state self')
  = (finished self, mode self, beam_idx self, force_eos self,
     subclass_state self) /\
  ((weight self' = weight self /\ twist_amount self' = twist_amount self) <->
   (twist_amount self = 0%float /\
    (weight self + amt + - (0 + amt))%float = weight self)) /\
  (twist_amount self = 0%float -> weight self = 0%float ->
   is_finite amt = true -> self' = self).
Proof.
  cbv zeta. split; [reflexivity | split; [reflexivity | split; [reflexivity |]]].
  split.
  - destruct self as [w f m b e t st]. cbn. split.
    + intros [Hw Ht]. subst t. split; [reflexivity | exact Hw].
    + intros [-> Hw]. split; [exact Hw | reflexivity].
  - destruct self as [w f m b e t st]. cbn. intros -> -> Hfin.
    unfold untwist, twist, score, set_twist_amount, set_weight. cbn.
    rewrite add_opp_diag by now apply is_finite_zero_add.
    reflexivity.
Qed.

(** C2, the claim refuted. With a twist of 1.0 pending (weight 1.0,
    twist_amount 1.0), [twist(2.0); untwist()] leaves weight 0.0 and
    twist_amount 0.0; and with no twist pending and weight 1.0,
    [twist(2**60); untwist()] leaves weight 0.0, the 1.0 being lost when
    [1.0 + 2**60] is rounded. *)
Lemma twist_untwist_not_restoring :
  (let self := twist 1 (Model_init tt) in
   weight self = 1%float /\ twist_amount self = 1%float /\
   weight (untwist (twist 2 self)) = 0%float /\
   twist_amount (untwist (twist 2 self)) = 0%float /\
   weight (untwist (twist 2 self)) <> weight self /\
   twist_amount (untwist (twist 2 self)) <> twist_amount self) /\
  (let self := score 1 (Model_init tt) in
   weight self = 1%float /\ twist_amount self = 0%float /\
   weight (untwist (twist 0x1p60 self)) = 0%float /\
   weight (untwist (twist 0x1p60 self)) <> weight self).
Proof.
  cbv zeta. repeat split; try (vm_compute; reflexivity);
    vm_compute; float_neq.
Qed.

Lemma twist_untwist_witness :
  untwist (twist 2.5 (Model_init tt)) = Model_init tt /\
  weight (untwist (twist 2 (twist 1 (Model_init tt)))) = 0%float /\
  weight (untwist (twist 2 (score 1 (Model_init tt)))) = 1%float.
Proof.
  pose proof (twist_untwist (Model_init tt) 2.5) as H1.
  pose proof (twist_untwist (twist 1 (Model_init tt)) 2) as H2.
  pose proof (twist_untwist (score 1 (Model_init tt)) 2) as H3.
  cbv zeta in H1, H2, H3.
  destruct H1 as (_ & _ & _ & _ & H1). destruct H2 as (_ & H2 & _).
  destruct H3 as (_ & _ & _ & [_ H3] & _).
  split; [exact (H1 eq_refl eq_refl eq_refl) | split; [exact H2 |]].
  exact (proj1 (H3 (conj eq_refl eq_refl))).
Defined.

Lemma neg_infinity_add_log_weight (x : float) :
  is_log_weight x = true -> (neg_infinity + x)%float = neg_infinity.
Proof.
  unfold is_log_weight. intros H.
  apply neg_infinity_add; destruct (Prim2SF x) as [s | [] | | s m e];
    congruence.
Qed.

Lemma is_log_weight_finite (x : float) :
  is_finite x = true -> is_log_weight x = true.
Proof.
  unfold is_finite, is_log_weight.
  destruct (Prim2SF x) as [s | [] | | s m e]; congruence.
Qed.

(** [(w - inf) - t] is minus infinity exactly when [w] is neither NaN nor
    plus infinity and [t] neither NaN nor minus infinity. *)
Lemma add_neg_infinity_opp_iff (w t : float) :
  (w + neg_infinity + - t)%float = neg_infinity <->
  is_log_weight w = true /\ can_untwist t = true.
Proof.
  unfold can_untwist, is_log_weight. split.
  - intros H. apply (f_equal Prim2SF) in H.
    rewrite !add_spec, Prim2SF_neg_infinity in H. rewrite opp_spec in *.
    destruct (Prim2SF w) as [sw | [] | | sw mw ew];
      destruct (Prim2SF t) as [st | [] | | st mt et]; cbn in *;
      try discriminate H; split; reflexivity.
  - intros [Hw Ht]. apply Prim2SF_inj.
    rewrite !add_spec, Prim2SF_neg_infinity. rewrite opp_spec in *.
    destruct (Prim2SF w) as [sw | [] | | sw mw ew];
      destruct (Prim2SF t) as [st | [] | | st mt et]; cbn in *;
      try discriminate Hw; try discriminate Ht; reflexivity.
Qed.

Lemma exec_primitive_dead {St : Type} (c : primitive) (self : Model St) :
  weight self = neg_infinity ->
  finite_argument c = true ->
  can_untwist (twist_amount self) = true ->
  weight (exec_primitive c self) = neg_infinity.
Proof.
  intros Hw Harg Ht. destruct c as [a | a | | | []]; cbn [exec_primitive].
  - rewrite weight_score, Hw. now apply neg_infinity_add_finite.
  - rewrite weight_twist, Hw. now apply neg_infinity_add_finite.
  - rewrite weight_untwist, Hw. now apply neg_infinity_add_log_weight.
  - rewrite weight_finish, Hw. now apply neg_infinity_add_log_weight.
  - exact Hw.
  - unfold condition. cbn [negb]. rewrite weight_finish.
    cbn [twist_amount score set_weight weight]. rewrite Hw.
    replace (neg_infinity + neg_infinity)%float with neg_infinity by reflexivity.
    now apply neg_infinity_add_log_weight.
Qed.

Lemma exec_primitives_dead {St : Type} (cs : list primitive) (self : Model St) :
  weight self = neg_infinity ->
  forallb finite_argument cs = true ->
  twist_stays cs self = true ->
  weight (exec_primitives cs self) = neg_infinity.
Proof.
  unfold exec_primitives. revert self.
  induction cs as [| c cs IH]; intros self Hw Hargs Hstay; cbn [fold_left].
  - exact Hw.
  - cbn in Hargs, Hstay.
    apply andb_true_iff in Hargs as [Harg Hargs].
    apply andb_true_iff in Hstay as [Ht Hstay].
    apply IH; [| exact Hargs | exact Hstay].
    now apply exec_primitive_dead.
Qed.

(** C3, as the code has it. [condition(False)] always makes
    [done_stepping()] true and twist_amount 0.0, and it sets weight to minus
    infinity exactly when the weight was neither NaN nor plus infinity and
    the pending twist neither NaN nor minus infinity. From a state whose
    weight is minus infinity, weight stays minus infinity through any
    sequence of [score], [twist], [untwist], [finish] and [condition] calls
    with finite arguments, and through an [observe] of finite
    log-probability, as long as the pending twist does not become minus
    infinity or NaN on the way. [condition(True)] changes nothing. *)
Theorem condition_false_terminal {St V W : Type}
    (self dead : Model St) (cs : list primitive)
    (d : Distribution.t V W) (x : V) (w w' : W) (p : float) :
  weight dead = neg_infinity ->
  forallb finite_argument cs = true ->
  twist_stays cs dead = true ->
  Distribution.log_prob d x w = (Ok p, w') ->
  is_finite p = true ->
  (weight (condition false self) = neg_infinity <->
   is_log_weight (weight self) = true /\
   can_untwist (twist_amount self) = true) /\
  done_stepping (condition false self) = true /\
  twist_amount (condition false self) = 0%float /\
  weight (exec_primitives cs dead) = neg_infinity /\
  weight (fst (snd (observe d x (dead, w)))) = neg_infinity /\
  condition true self = self.
Proof.
  intros Hdead Hargs Hstay Hp Hpfin.
  split; [| split; [reflexivity | split; [reflexivity | split; [| split]]]].
  - apply add_neg_infinity_opp_iff.
  - now apply exec_primitives_dead.
  - unfold observe, call, self_do, mbind, M_bind, bind, mret, M_ret, ret.
    rewrite Hp. cbn. rewrite Hdead. now apply neg_infinity_add_finite.
  - reflexivity.
Qed.

(** C3, the claim refuted. Two finite scores of [2**1023] make the weight
    plus infinity, and [condition(False)] then leaves it NaN, not minus
    infinity. And after [condition(False)] on a new particle, two twists
    by [-2**1023] make the pending twist minus infinity, so that
    [untwist()] moves the weight from minus infinity to NaN, every argument
    being finite. *)
Lemma condition_false_not_terminal :
  (let self := score 0x1p1023 (score 0x1p1023 (Model_init tt)) in
   weight self = infinity /\
   weight (condition false self) = nan /\
   weight (condition false self) <> neg_infinity) /\
  (let dead := condition false (Model_init tt) in
   weight dead = neg_infinity /\
   is_finite (-0x1p1023) = true /\
   weight (twist (-0x1p1023) (twist (-0x1p1023) dead)) = neg_infinity /\
   weight (untwist (twist (-0x1p1023) (twist (-0x1p1023) dead))) = nan /\
   weight (untwist (twist (-0x1p1023) (twist (-0x1p1023) dead)))
   <> neg_infinity).
Proof.
  cbv zeta. repeat split; try (vm_compute; reflexivity);
    vm_compute; float_neq.
Qed.

(** ** Sampling and observing *)

Ltac run_monad :=
  unfold call, self_do, self_get, unpack2, lift_res,
    mbind, M_bind, bind, mret, M_ret, ret, raise.

(** C1. In sample mode, [sample(dist, proposal)] with a proposal draws
    [(x, q)] from [proposal.sample()], adds [dist.log_prob(x) - q] to the
    weight, leaves finished and twist_amount alone and returns [x];
    [sample_async] with a proposal does the same with the values its two
    awaits resolve to. *)
Theorem sample_with_proposal {St V W : Type}
    (d prop : Distribution.t V W) (self : Model St)
    (w w1 w2 w1' w2' : W) (x x' : V) (q p q' p' : float) :
  mode self = "sample" ->
  Distribution.sample prop w = (Ok (x, q), w1) ->
  Distribution.log_prob d x w1 = (Ok p, w2) ->
  Distribution.sample_async prop w = (Ok (x', q'), w1') ->
  Distribution.log_prob_async d x' w1' = (Ok p', w2') ->
  (sample d (Some prop) (self, w) = (Ok x, (score (p - q) self, w2)) /\
   weight (score (p - q) self) = (weight self + (p - q))%float /\
   finished (score (p - q) self) = finished self /\
   twist_amount (score (p - q) self) = twist_amount self) /\
  (run_until_complete (sample_async d (Some prop)) (self, w)
   = (Ok x', (score (p' - q') self, w2')) /\
   suspensions (sample_async d (Some prop)) self w = 2%nat).
Proof.
  intros Hmode Hs Hl Hsa Hla. split.
  - repeat split. unfold sample. run_monad. rewrite Hmode. cbn.
    rewrite Hs. cbn. rewrite Hl. reflexivity.
  - unfold sample_async, await, on_self, mbind, Coro_bind, mret, Coro_ret.
    cbn. rewrite Hsa. cbn. rewrite Hla. cbn. split; reflexivity.
Qed.

Lemma sample_with_proposal_witness :
  sample (St := unit) (point_dist 3 (-1)) (Some (point_dist 5 (-2)))
         (Model_init tt, tt)
  = (Ok 5, (score (-1 - -2) (Model_init tt), tt)) /\
  run_until_complete (St := unit)
    (sample_async (point_dist 3 (-1)) (Some (point_dist 5 (-2))))
    (Model_init tt, tt)
  = (Ok 5, (score (-1 - -2) (Model_init tt), tt)).
Proof.
  pose proof (sample_with_proposal (St := unit)
                (point_dist 3 (-1)) (point_dist 5 (-2)) (Model_init tt)
                tt tt tt tt tt 5 5 (-2) (-1) (-2) (-1)
                eq_refl eq_refl eq_refl eq_refl eq_refl) as [[H1 _] [H2 _]].
  split; [exact H1 | exact H2].
Defined.

Lemma condition_false_terminal_witness :
  let self := score (-3) (Model_init tt) in
  let dead := condition false self in
  weight dead = neg_infinity /\
  done_stepping dead = true /\
  weight (exec_primitives
            [Twist 1; Score 2; Untwist; Twist 0x1p1023; Twist 0x1p1023;
             Condition false; Finish] dead) = neg_infinity /\
  weight (fst (snd (observe (point_dist 0 (-2)) 0 (dead, tt)))) = neg_infinity /\
  condition true self = self.
Proof.
  cbv zeta.
  pose proof (condition_false_terminal (St := unit)
                (score (-3) (Model_init tt))
                (condition false (score (-3) (Model_init tt)))
                [Twist 1; Score 2; Untwist; Twist 0x1p1023; Twist 0x1p1023;
                 Condition false; Finish]
                (point_dist 0 (-2)) 0 tt tt (-2)
                eq_refl eq_refl eq_refl eq_refl eq_refl)
    as (H1 & H2 & _ & H3 & H4 & H5).
  split; [exact (proj2 H1 (conj eq_refl eq_refl)) |].
  repeat split; assumption.
Defined.

(** C6, what the code does. [observe(dist, x)] adds [dist.log_prob(x)] to
    the weight and returns [x], and passes on what [log_prob] raises with
    the particle untouched. [Geometric.log_prob] evaluates [np.log], and
    [geometric.py] never binds the name [np]: every call raises
    [NameError], so [observe(Geometric(0.5), 3)] on a new particle raises
    [NameError] and leaves the weight 0.0, not log(0.125). In a module that
    has imported numpy the same method makes the weight
    [0.0 + (log(0.5) + log(0.5)*2)], which with numpy's values of
    [np.log(0.5)] and [np.log(0.125)] equals [log(0.125)] bit for bit. *)
Theorem observe_geometric_name_error {St V W : Type}
    (d : Distribution.t V W) (x : V) (self : Model St) (w : W)
    (g : Geometric.t) (value : Z) :
  observe d x (self, w)
  = match Distribution.log_prob d x w with
    | (Ok p, w') => (Ok x, (score p self, w'))
    | (Raise e, w') => (Raise e, (self, w'))
    end /\
  Geometric.log_prob g value w = (Raise NameError, w) /\
  observe (Geometric.as_distribution g) value (self, w)
  = (Raise NameError, (self, w)) /\
  (forall st : St,
     let r := observe (Geometric.as_distribution (Geometric.mk 0.5)) 3
                (Model_init st, w) in
     fst r = Raise NameError /\ weight (fst (snd r)) = 0%float) /\
  (forall (numpy : Numpy W) (st : St),
     np_log numpy 0.5%float = (-0x1.62e42fefa39efp-1)%float ->
     np_log numpy 0.125%float = (-0x1.0a2b23f3bab73p+1)%float ->
     let r := observe (Geometric.with_numpy numpy (Geometric.mk 0.5)) 3
                (Model_init st, w) in
     fst r = Ok 3 /\
     weight (fst (snd r)) = (0 + (np_log numpy 0.5 + np_log numpy 0.5 * 2))%float /\
     weight (fst (snd r)) = np_log numpy 0.125%float).
Proof.
  split; [| split; [reflexivity | split; [reflexivity | split]]].
  - unfold observe. run_monad.
    destruct (Distribution.log_prob d x w) as [[p | e] w']; reflexivity.
  - intros st. cbv zeta. split; reflexivity.
  - intros numpy st H05 H0125. cbv zeta.
    assert (Hr : observe (Geometric.with_numpy numpy (Geometric.mk 0.5)) 3
                   (Model_init st, w)
                 = (Ok 3, (score (np_log numpy 0.5 + np_log numpy 0.5 * 2)%float
                                 (Model_init st), w))) by reflexivity.
    rewrite Hr. cbn [fst snd]. rewrite weight_score. cbn [weight Model_init].
    rewrite H0125, H05. repeat split.
Qed.

Lemma observe_geometric_name_error_witness :
  observe (St := unit) (Geometric.as_distribution (Geometric.mk 0.5)) 3
    (Model_init tt, tt)
  = (Raise NameError, (Model_init tt, tt)) /\
  weight (fst (snd (observe (Geometric.with_numpy numpy_table (Geometric.mk 0.5))
                      3 (Model_init tt, tt))))
  = np_log_table 0.125.
Proof.
  pose proof (observe_geometric_name_error (St := unit)
                (point_dist 0 (-2)) 7 (Model_init tt) tt (Geometric.mk 0.5) 3)
    as (_ & _ & H1 & _ & H2).
  specialize (H2 numpy_table tt eq_refl eq_refl). cbv zeta in H2.
  split; [exact H1 | exact (proj2 (proj2 H2))].
Defined.

(** ** The distributions *)

(** C4, what the code does. [argmax(0)] returns no most likely outcome
    paired with its log-probability, for either distribution.
    [Geometric.argmax(idx)] is the bare integer [idx - 1], so [argmax(0)]
    is -1: not a pair, so that [Model.sample] in beam mode raises
    [TypeError] on unpacking it, and not the outcome the source's own
    comment calls the most likely (0). [TokenCategorical.argmax] evaluates
    [torch.argsort], and [tokencategorical.py] never binds the name
    [torch]: every call raises [NameError]. *)
Theorem argmax_zero_fails {W : Type} :
  (forall (g : Geometric.t) (idx : Z), Geometric.argmax g idx = idx - 1) /\
  (forall (g : Geometric.t) (w : W),
     Distribution.argmax (Geometric.as_distribution g) 0 w
     = (Ok (Single (-1)), w)) /\
  sample (Geometric.as_distribution (Geometric.mk 0.5)) None (beam_particle, tt)
  = (Raise TypeError, (beam_particle, tt)) /\
  (forall (self : TokenCategorical.t) (idx : Z),
     TokenCategorical.argmax self idx = Raise NameError) /\
  TokenCategorical.argmax cat3 0 = Raise NameError.
Proof. repeat split. Qed.

(** C8. [TokenCategorical(lm, logits)] raises [RuntimeError] in the
    constructor exactly when [len(logits)] differs from the tokenizer's
    [vocab_size], so that no object exists whose [sample] or [log_prob]
    could meet the mismatch; with equal lengths it raises nothing and the
    object holds [log_softmax(logits)]. *)
Theorem init_checks_vocab_size
    (log_softmax : list float -> list float)
    (lm : TokenCategorical.LM) (logits : list float) :
  (TokenCategorical.vocab_size lm <> Z.of_nat (length logits) <->
   TokenCategorical.init log_softmax lm logits = Raise RuntimeError) /\
  (TokenCategorical.vocab_size lm = Z.of_nat (length logits) <->
   TokenCategorical.init log_softmax lm logits
   = Ok (TokenCategorical.mk lm (log_softmax logits))) /\
  (forall e, TokenCategorical.init log_softmax lm logits = Raise e ->
             e = RuntimeError).
Proof.
  unfold TokenCategorical.init.
  destruct (Z.eqb_spec (TokenCategorical.vocab_size lm) (Z.of_nat (length logits)))
    as [Heq | Hne]; cbn [negb].
  - split; [| split].
    + split; [intros H; contradiction | discriminate].
    + split; [reflexivity | intros _; exact Heq].
    + discriminate.
  - split; [| split].
    + split; [reflexivity | intros _; exact Hne].
    + split; [intros H; contradiction | discriminate].
    + intros e [= <-]. reflexivity.
Qed.

(** ** Cloning *)

Section DeepcopyFacts.

Context {Obj : Type}.
Implicit Types (h : gmap loc Obj) (memo : gmap loc loc) (d : pydict).

Lemma getattr_setattr_eq d k v : getattr (setattr d k v) k = Some v.
Proof.
  induction d as [| [k' v'] d IH]; cbn.
  - now rewrite String.eqb_refl.
  - destruct (String.eqb k' k) eqn:E; cbn; rewrite E; [reflexivity | exact IH].
Qed.

Lemma getattr_setattr_ne d k k' v :
  k <> k' -> getattr (setattr d k v) k' = getattr d k'.
Proof.
  intros Hne. induction d as [| [k0 v0] d IH]; cbn.
  - destruct (String.eqb_spec k k'); [contradiction | reflexivity].
  - destruct (String.eqb_spec k0 k) as [-> | Hk]; cbn.
    + destruct (String.eqb_spec k k'); [contradiction | reflexivity].
    + now rewrite IH.
Qed.

Lemma getattr_None d k : k ∉ d.*1 -> getattr d k = None.
Proof.
  induction d as [| [k' v'] d IH]; cbn; [reflexivity |].
  intros Hk. apply not_elem_of_cons in Hk as [Hne Hk].
  destruct (String.eqb_spec k' k); [congruence | now apply IH].
Qed.

Lemma getattr_Some_elem d k v : getattr d k = Some v -> (k, v) ∈ d.
Proof.
  induction d as [| [k' v'] d IH]; cbn; [discriminate |].
  destruct (String.eqb_spec k' k) as [-> | Hne].
  - intros [= ->]. left.
  - intros H. right. now apply IH.
Qed.

Lemma closed_lookup h d k l :
  closed h d = true -> (k, Ref l) ∈ d -> is_Some (h !! l).
Proof.
  unfold closed. rewrite forallb_forall. intros Hall Hin.
  apply list_elem_of_In in Hin. specialize (Hall _ Hin). cbn in Hall.
  now apply bool_decide_eq_true in Hall.
Qed.

Lemma copied_mono memo memo' v v' :
  memo ⊆ memo' -> copied memo v v' -> copied memo' v v'.
Proof.
  intros Hsub. destruct v as [a | l]; cbn; [trivial |].
  intros (l' & -> & Hl). exists l'. split; [reflexivity |].
  eapply lookup_weaken; eassumption.
Qed.

Lemma copy_deepcopy_inv h0 v memo h v' memo' h' :
  copy_deepcopy v memo h = (v', memo', h') ->
  memo_inv h0 memo h ->
  (forall l, v = Ref l -> is_Some (h0 !! l)) ->
  memo_inv h0 memo' h' /\ memo ⊆ memo' /\ copied memo' v v'.
Proof.
  intros Hcopy [Hsub Hmemo] Hv. destruct v as [a | l]; cbn in Hcopy.
  - injection Hcopy as <- <- <-.
    split; [exact (conj Hsub Hmemo) | split; reflexivity].
  - destruct (memo !! l) as [l1 |] eqn:Hl.
    + injection Hcopy as <- <- <-.
      split; [exact (conj Hsub Hmemo) | split; [reflexivity |]].
      exists l1. auto.
    + destruct (Hv l eq_refl) as [o Ho].
      assert (Hho : h !! l = Some o) by (eapply lookup_weaken; eassumption).
      rewrite Hho in Hcopy. injection Hcopy as <- <- <-.
      set (l' := fresh (dom h)).
      assert (Hfresh : h !! l' = None)
        by (apply not_elem_of_dom; apply is_fresh).
      assert (Hfresh0 : h0 !! l' = None).
      { destruct (h0 !! l') as [o' |] eqn:E; [| reflexivity].
        eapply lookup_weaken in E; [| exact Hsub]. congruence. }
      split; [split |].
      * etrans; [exact Hsub | now apply insert_subseteq].
      * intros l1 l1' Hl1.
        destruct (decide (l1 = l)) as [-> | Hne].
        -- rewrite lookup_insert_eq in Hl1. injection Hl1 as <-.
           rewrite lookup_insert_eq. rewrite Ho. eauto.
        -- rewrite lookup_insert_ne in Hl1 by congruence.
           destruct (Hmemo _ _ Hl1) as (Hsome & Hnone & Heq).
           repeat split; [exact Hsome | exact Hnone |].
           rewrite lookup_insert_ne; [exact Heq |].
           intros <-. rewrite Hfresh in Heq.
           destruct Hsome as [o1 Ho1]. congruence.
      * split; [now apply insert_subseteq |].
        exists l'. split; [reflexivity | apply lookup_insert_eq].
Qed.

Lemma getattr_elem_of d k : k ∈ d.*1 -> is_Some (getattr d k).
Proof.
  induction d as [| [k' v'] d IH]; cbn.
  - intros H. now apply elem_of_nil in H.
  - intros H. destruct (String.eqb_spec k' k) as [-> | Hne]; [eauto |].
    apply elem_of_cons in H as [-> | H]; [contradiction | now apply IH].
Qed.

(** The invariant of the loop of [__deepcopy__]. *)
Lemma deepcopy_items_inv h0 (immutable : gset string) items :
  forall cpy memo h cpy' memo' h',
    deepcopy_items immutable items cpy memo h = (cpy', memo', h') ->
    memo_inv h0 memo h ->
    (forall k l, (k, Ref l) ∈ items -> is_Some (h0 !! l)) ->
    NoDup items.*1 ->
    memo_inv h0 memo' h' /\ memo ⊆ memo' /\
    (forall k, k ∉ items.*1 -> getattr cpy' k = getattr cpy k) /\
    (forall k v, (k, v) ∈ items ->
       exists v', getattr cpy' k = Some v' /\
                  if decide (k ∈ immutable) then v' = v else copied memo' v v').
Proof.
  induction items as [| [k0 v0] rest IH];
    intros cpy memo h cpy' memo' h' Hrun Hinv Hclosed Hnodup.
  - cbn in Hrun. injection Hrun as <- <- <-.
    split; [exact Hinv | split; [reflexivity | split; [reflexivity |]]].
    intros k v H. now apply elem_of_nil in H.
  - cbn in Hrun. cbn in Hnodup. apply NoDup_cons in Hnodup as [Hk0 Hnodup].
    assert (Hclosed' : forall k l, (k, Ref l) ∈ rest -> is_Some (h0 !! l))
      by (intros k l H; apply (Hclosed k l); now right).
    destruct (decide (k0 ∈ immutable)) as [Himm | Himm].
    + destruct (IH _ _ _ _ _ _ Hrun Hinv Hclosed' Hnodup)
        as (Hinv' & Hsub & Hout & Hin).
      split; [exact Hinv' | split; [exact Hsub | split]].
      * intros k Hk. cbn in Hk. apply not_elem_of_cons in Hk as [Hne Hk].
        rewrite (Hout k Hk). apply getattr_setattr_ne. congruence.
      * intros k v Hkv. apply elem_of_cons in Hkv as [[= -> ->] | Hkv].
        -- exists v0. rewrite (Hout k0 Hk0), getattr_setattr_eq.
           split; [reflexivity |]. now rewrite decide_True.
        -- now apply Hin.
    + destruct (copy_deepcopy v0 memo h) as [[v1 memo1] h1] eqn:Hcopy.
      destruct (copy_deepcopy_inv h0 _ _ _ _ _ _ Hcopy Hinv)
        as (Hinv1 & Hsub1 & Hcopied).
      { intros l ->. apply (Hclosed k0 l). left. }
      destruct (IH _ _ _ _ _ _ Hrun Hinv1 Hclosed' Hnodup)
        as (Hinv' & Hsub & Hout & Hin).
      split; [exact Hinv' | split; [by (etrans; [exact Hsub1 | exact Hsub]) | split]].
      * intros k Hk. cbn in Hk. apply not_elem_of_cons in Hk as [Hne Hk].
        rewrite (Hout k Hk). apply getattr_setattr_ne. congruence.
      * intros k v Hkv. apply elem_of_cons in Hkv as [[= -> ->] | Hkv].
        -- exists v1. rewrite (Hout k0 Hk0), getattr_setattr_eq.
           split; [reflexivity |]. rewrite decide_False by exact Himm.
           eapply copied_mono; eassumption.
        -- now apply Hin.
Qed.

End DeepcopyFacts.

(** C7. The clone that forking a particle produces has the attributes of the
    original with the same values; an attribute named in
    [immutable_properties()] holds the very object the original holds; any
    other attribute that refers to an object refers, in the clone, to a new
    object with the same contents, and an atom is kept; the objects of the
    original are left as they were, so the original reads as before, also
    after any rebinding of an attribute of the clone, whose [__dict__] is
    its own. Hence, when [immutable_properties()] is
    empty, a mutation of an object that an attribute of the clone refers to
    changes no attribute of the original, and a mutation of an object of the
    original changes no attribute of the clone. *)
Theorem fork_copies_and_shares {Obj : Type}
    (immutable : gset string) (self : pydict) (h : gmap loc Obj) :
  unique_names self = true ->
  closed h self = true ->
  let cpy := (fork immutable self h).1 in
  let h' := (fork immutable self h).2 in
  (forall l, is_Some (h !! l) -> h' !! l = h !! l) /\
  (forall k, read h' self k = read h self k) /\
  (forall k, read h' cpy k = read h self k) /\
  (forall k v, getattr self k = Some v -> k ∈ immutable ->
               getattr cpy k = Some v) /\
  (forall k l, getattr self k = Some (Ref l) -> k ∉ immutable ->
               exists l', getattr cpy k = Some (Ref l') /\
                          h !! l' = None /\ h' !! l' = h !! l) /\
  (forall k a, getattr self k = Some (Atom a) -> getattr cpy k = Some (Atom a)) /\
  (immutable = immutable_properties ->
   forall k l o k', getattr cpy k = Some (Ref l) ->
                    read (mutate l o h') self k' = read h self k') /\
  (immutable = immutable_properties ->
   forall k l o k', getattr self k = Some (Ref l) ->
                    read (mutate l o h') cpy k' = read h' cpy k').
Proof.
  intros Huniq Hclosed. unfold fork, Model_deepcopy.
  destruct (deepcopy_items immutable self [] ∅ h) as [[cpy memo'] h'] eqn:Hrun.
  cbn [fst snd]. cbv zeta.
  apply bool_decide_eq_true in Huniq.
  assert (Hinv0 : memo_inv h ∅ h).
  { split; [reflexivity |]. intros l l' H. now rewrite lookup_empty in H. }
  destruct (deepcopy_items_inv h _ _ _ _ _ _ _ _ Hrun Hinv0
              (fun k l => closed_lookup h self k l Hclosed) Huniq)
    as ([Hsub Hmemo] & _ & Hout & Hin).
  assert (Hold : forall l, is_Some (h !! l) -> h' !! l = h !! l).
  { intros l [o Ho]. rewrite Ho. eapply lookup_weaken; eassumption. }
  assert (Hnone : forall k, getattr self k = None -> getattr cpy k = None).
  { intros k Hk. rewrite Hout; [reflexivity |].
    intros Hel. apply getattr_elem_of in Hel as [v Hv]. congruence. }
  assert (Hsome : forall k v, getattr self k = Some v ->
            exists v', getattr cpy k = Some v' /\
              if decide (k ∈ immutable) then v' = v else copied memo' v v')
    by (intros k v Hk; apply Hin; now apply getattr_Some_elem).
  assert (Hrefs : forall k l, getattr self k = Some (Ref l) -> is_Some (h !! l))
    by (intros k l Hk; eapply closed_lookup;
        [exact Hclosed | apply getattr_Some_elem; exact Hk]).
  assert (Hnew : immutable = immutable_properties ->
            forall k l, getattr cpy k = Some (Ref l) -> h !! l = None).
  { intros -> k l Hk. destruct (getattr self k) as [v |] eqn:Hself.
    - destruct (Hsome _ _ Hself) as (v' & Hv' & Hcp).
      rewrite decide_False in Hcp by (unfold immutable_properties; set_solver).
      rewrite Hk in Hv'. injection Hv' as <-.
      destruct v as [a | l0]; cbn in Hcp; [discriminate |].
      destruct Hcp as (l' & [= ->] & Hl'). now destruct (Hmemo _ _ Hl') as (_ & ? & _).
    - rewrite (Hnone _ Hself) in Hk. discriminate. }
  split; [exact Hold | split; [| split; [| split; [| split; [| split; [| split]]]]]].
  - intros k. unfold read. destruct (getattr self k) as [[a | l] |] eqn:Hself;
      cbn; [reflexivity | | reflexivity].
    now rewrite (Hold l (Hrefs _ _ Hself)).
  - intros k. unfold read. destruct (getattr self k) as [v |] eqn:Hself; cbn.
    + destruct (Hsome _ _ Hself) as (v' & -> & Hcp). cbn.
      destruct (decide (k ∈ immutable)).
      * subst v'. destruct v as [a | l]; cbn; [reflexivity |].
        now rewrite (Hold l (Hrefs _ _ Hself)).
      * destruct v as [a | l]; cbn in Hcp; [now subst |].
        destruct Hcp as (l' & -> & Hl'). cbn.
        now destruct (Hmemo _ _ Hl') as (_ & _ & ->).
    + now rewrite (Hnone _ Hself).
  - intros k v Hself Himm. destruct (Hsome _ _ Hself) as (v' & Hv' & Hcp).
    rewrite decide_True in Hcp by exact Himm. now subst.
  - intros k l Hself Himm. destruct (Hsome _ _ Hself) as (v' & Hv' & Hcp).
    rewrite decide_False in Hcp by exact Himm. cbn in Hcp.
    destruct Hcp as (l' & -> & Hl'). exists l'.
    destruct (Hmemo _ _ Hl') as (_ & ? & ?). auto.
  - intros k a Hself. destruct (Hsome _ _ Hself) as (v' & Hv' & Hcp).
    destruct (decide (k ∈ immutable)); cbn in Hcp; now subst.
  - intros Himm k l o k' Hk. specialize (Hnew Himm k l Hk).
    unfold read, mutate. destruct (getattr self k') as [[a | l0] |] eqn:Hself;
      cbn; [reflexivity | | reflexivity].
    destruct (Hrefs _ _ Hself) as [o0 Ho0].
    rewrite lookup_insert_ne by congruence.
    now rewrite (Hold l0 (Hrefs _ _ Hself)).
  - intros Himm k l o k' Hk. destruct (Hrefs _ _ Hk) as [o0 Ho0].
    unfold read, mutate. destruct (getattr cpy k') as [[a | l0] |] eqn:Hcpy;
      cbn; [reflexivity | | reflexivity].
    specialize (Hnew Himm k' l0 Hcpy).
    rewrite lookup_insert_ne by congruence. reflexivity.
Qed.

Lemma fork_copies_and_shares_witness :
  getattr (fork {["ctx"]} particle4 heap2).1 "ctx" = Some (Ref 0%nat) /\
  (forall k, read (fork {["ctx"]} particle4 heap2).2
                  (fork {["ctx"]} particle4 heap2).1 k
             = read heap2 particle4 k) /\
  (forall o k',
     read (mutate 3%nat o (fork immutable_properties particle4 heap2).2)
          particle4 k'
     = read heap2 particle4 k').
Proof.
  pose proof (fork_copies_and_shares {["ctx"]} particle4 heap2
                eq_refl eq_refl) as H1.
  pose proof (fork_copies_and_shares immutable_properties particle4 heap2
                eq_refl eq_refl) as H2.
  cbv zeta in H1, H2.
  destruct H1 as (_ & _ & Hread & Hshare & _).
  destruct H2 as (_ & _ & _ & _ & _ & _ & Hmut & _).
  split; [| split].
  - apply Hshare; [reflexivity | set_solver].
  - exact Hread.
  - intros o k'. apply (Hmut eq_refl "toks"). vm_compute. reflexivity.
Defined.

(** * Further properties of the code *)

(** ** The weighting algebra, continued *)

Lemma set_weight_same {St : Type} (self : Model St) :
  set_weight (weight self) self = self.
Proof. now destruct self. Qed.

(** X1. A run of [score] calls leaves the weight at the left-to-right
    binary64 sum of the amounts, started from the weight before, and changes
    no other attribute. *)
Theorem score_sequence {St : Type} (amounts : list float) (self : Model St) :
  let self' := fold_left (fun s a => score a s) amounts self in
  weight self' = fold_left PrimFloat.add amounts (weight self) /\
  self' = set_weight (weight self') self.
Proof.
  cbv zeta. revert self.
  induction amounts as [| a amounts IH]; intros self; cbn [fold_left].
  - split; [reflexivity | now rewrite set_weight_same].
  - destruct (IH (score a self)) as [Hw Hs]. split; [exact Hw |].
    rewrite Hs at 1. reflexivity.
Qed.

Lemma twists_keep_equal {St : Type} (amts : list float) (self : Model St) :
  weight self = twist_amount self ->
  weight (fold_left (fun s a => twist a s) amts self)
  = twist_amount (fold_left (fun s a => twist a s) amts self).
Proof.
  revert self. induction amts as [| a amts IH]; intros self Heq; cbn [fold_left].
  - exact Heq.
  - apply IH. cbn. now rewrite Heq.
Qed.

Lemma twists_frame {St : Type} (amts : list float) (self : Model St) :
  let self' := fold_left (fun s a => twist a s) amts self in
  self' = set_twist_amount (twist_amount self') (set_weight (weight self') self).
Proof.
  cbv zeta. revert self.
  induction amts as [| a amts IH]; intros self; cbn [fold_left].
  - now destruct self.
  - rewrite (IH (twist a self)) at 1. reflexivity.
Qed.

(** X2. On a particle whose weight and twist_amount are equal, as on a new
    or a reset one, any run of [twist] calls keeps them equal, bit for bit;
    so if the accumulated twist is finite, [untwist()] brings the weight to
    exactly 0.0, with no rounding residue, and twist_amount to 0.0. *)
Theorem twists_cancel_exactly {St : Type} (amts : list float) (self : Model St) :
  weight self = twist_amount self ->
  let self' := fold_left (fun s a => twist a s) amts self in
  is_finite (twist_amount self') = true ->
  weight self' = twist_amount self' /\
  untwist self' = set_twist_amount 0 (set_weight 0 self).
Proof.
  intros Heq self' Hfin. pose proof (twists_keep_equal amts self Heq) as Hk.
  fold self' in Hk. split; [exact Hk |].
  unfold untwist, score. rewrite Hk, add_opp_diag by exact Hfin.
  subst self'. rewrite (twists_frame amts self). reflexivity.
Qed.

Lemma twists_cancel_exactly_witness :
  untwist (twist 0x1.999999999999ap-4 (twist 0x1p60 (twist 3 (Model_init tt)))) = Model_init tt.
Proof.
  exact (proj2 (twists_cancel_exactly [3; 0x1p60; 0x1.999999999999ap-4]%float (Model_init tt)
                  eq_refl eq_refl)).
Defined.

Lemma exec_primitive_frame {St : Type} (c : primitive) (self : Model St) :
  (mode (exec_primitive c self), beam_idx (exec_primitive c self),
   force_eos (exec_primitive c self), subclass_state (exec_primitive c self))
  = (mode self, beam_idx self, force_eos self, subclass_state self).
Proof. destruct c as [a | a | | | []]; reflexivity. Qed.

Lemma exec_primitive_finished {St : Type} (c : primitive) (self : Model St) :
  finished self = true -> finished (exec_primitive c self) = true.
Proof. destruct c as [a | a | | | []]; cbn; auto. Qed.

(** X3. No program of weighting primitives ([score], [twist], [untwist],
    [finish], [condition]) touches mode, beam_idx, force_eos or the
    attributes of the subclass; so [reset()] after any such program gives
    the particle [Model.__init__] would, with the subclass attributes it
    had. *)
Theorem primitives_frame {St : Type} (cs : list primitive) (self : Model St) :
  let self' := exec_primitives cs self in
  mode self' = mode self /\
  beam_idx self' = beam_idx self /\
  force_eos self' = force_eos self /\
  subclass_state self' = subclass_state self /\
  reset self' = Model_init (subclass_state self).
Proof.
  cbv zeta. unfold exec_primitives. revert self.
  induction cs as [| c cs IH]; intros self; cbn [fold_left].
  - repeat split.
  - destruct (IH (exec_primitive c self)) as (Hm & Hb & Hf & Hs & Hr).
    pose proof (exec_primitive_frame c self) as [= Em Eb Ef Es].
    rewrite Hm, Hb, Hf, Hs, Hr. rewrite Es. repeat split; assumption.
Qed.

(** X4. The finished state is terminal for the weighting primitives: once
    finished is True, no program of [score], [twist], [untwist], [finish]
    and [condition] calls makes it False again; and a program that contains
    [finish()] or [condition(False)] ends finished. *)
Theorem finished_is_terminal {St : Type} (cs : list primitive) (self : Model St) :
  (finished self = true \/ In Finish cs \/ In (Condition false) cs) ->
  finished (exec_primitives cs self) = true.
Proof.
  unfold exec_primitives. revert self.
  induction cs as [| c cs IH]; intros self H; cbn [fold_left].
  - destruct H as [H | [[] | []]]. exact H.
  - apply IH. destruct H as [H | [[-> | H] | [-> | H]]].
    + left. now apply exec_primitive_finished.
    + left. reflexivity.
    + right. left. exact H.
    + left. reflexivity.
    + right. right. exact H.
Qed.

Lemma finished_is_terminal_witness :
  finished (exec_primitives [Twist 1; Condition false; Score 2; Untwist]
              (Model_init tt)) = true.
Proof.
  apply (finished_is_terminal [Twist 1; Condition false; Score 2; Untwist]
           (Model_init tt)).
  right. right. cbn. auto.
Defined.

Lemma Prim2SF_nan : Prim2SF nan = S754_nan.
Proof. reflexivity. Qed.

(** [(w - inf) - t] is minus infinity or NaN, whatever [w] and [t]. *)
Lemma add_neg_infinity_opp (w t : float) :
  (w + neg_infinity + - t)%float = neg_infinity \/
  (w + neg_infinity + - t)%float = nan.
Proof.
  assert (H : Prim2SF (w + neg_infinity + - t) = S754_infinity true \/
              Prim2SF (w + neg_infinity + - t) = S754_nan).
  { rewrite !add_spec, opp_spec, Prim2SF_neg_infinity.
    destruct (Prim2SF w) as [sw | [] | | sw mw ew];
      destruct (Prim2SF t) as [st | [] | | st mt et]; cbn; auto. }
  destruct H as [H | H]; [left | right]; apply Prim2SF_inj; rewrite H;
    reflexivity.
Qed.

(** X5. [condition(False)] always ends with finished True and twist_amount
    0.0, and never with a usable weight: the weight is minus infinity, or
    NaN when the weight was plus infinity or NaN or the pending twist was
    minus infinity or NaN; the other attributes are untouched. *)
Theorem condition_false_kills {St : Type} (self : Model St) :
  let self' := condition false self in
  finished self' = true /\
  twist_amount self' = 0%float /\
  (weight self' = neg_infinity \/ weight self' = nan) /\
  self' = set_finished true
            (set_twist_amount 0 (set_weight (weight self') self)).
Proof.
  cbv zeta. split; [reflexivity | split; [reflexivity | split]].
  - apply add_neg_infinity_opp.
  - reflexivity.
Qed.

(** ** Sampling, continued *)

Ltac case_calls :=
  repeat (match goal with
          | |- context [match ?c with _ => _ end] =>
              lazymatch c with
              | context [match _ with _ => _ end] => fail
              | _ => destruct c eqn:?
              end
          end; cbn).

(** X6. [sample], [observe] and [do] change nothing of the particle but its
    weight, in either mode and with or without a proposal; when one of them
    raises (an exception of the distribution, or the failed unpacking of
    [argmax]'s result) the particle is exactly as before; and [do] never
    changes the particle at all. *)
Theorem sampling_changes_only_weight {St V W : Type}
    (d : Distribution.t V W) (proposal : option (Distribution.t V W)) (x : V)
    (self : Model St) (w : W) :
  let rs := sample d proposal (self, w) in
  let ro := observe d x (self, w) in
  let rd := do d x (self, w) in
  ((snd rs).1 = set_weight (weight (snd rs).1) self /\
   (forall e, fst rs = Raise e -> (snd rs).1 = self)) /\
  ((snd ro).1 = set_weight (weight (snd ro).1) self /\
   (forall e, fst ro = Raise e -> (snd ro).1 = self)) /\
  (snd rd).1 = self.
Proof.
  cbv zeta. unfold sample, observe, do. run_monad. cbn.
  repeat split; try intros e; case_calls;
    try discriminate; try reflexivity; now rewrite ?set_weight_same.
Qed.

(** X7. In beam mode [sample] is deterministic enumeration: with a proposal
    it returns the [beam_idx]-th outcome [x] of [proposal.argmax] and adds
    [dist.log_prob(x)] to the weight, the score [argmax] reported being
    dropped; without one it returns the outcome of [dist.argmax] and adds
    the score [argmax] reported. *)
Theorem sample_beam {St V W : Type}
    (d prop : Distribution.t V W) (self : Model St)
    (w w1 w2 w1' : W) (x x' : V) (s s' p : float) :
  mode self = "beam" ->
  Distribution.argmax prop (beam_idx self) w = (Ok (Pair x s), w1) ->
  Distribution.log_prob d x w1 = (Ok p, w2) ->
  Distribution.argmax d (beam_idx self) w = (Ok (Pair x' s'), w1') ->
  sample d (Some prop) (self, w) = (Ok x, (score p self, w2)) /\
  sample d None (self, w) = (Ok x', (score s' self, w1')).
Proof.
  intros Hmode Hprop Hlp Hd. unfold sample. run_monad. rewrite Hmode. cbn.
  rewrite Hprop, Hd. cbn. rewrite Hlp. split; reflexivity.
Qed.

Lemma sample_beam_witness :
  sample (point_dist 3 (-1)) (Some (point_dist 5 (-2))) (beam_particle, tt)
  = (Ok 5, (score (-1) beam_particle, tt)) /\
  sample (point_dist 3 (-1)) None (beam_particle, tt)
  = (Ok 3, (score (-1) beam_particle, tt)).
Proof.
  exact (sample_beam (point_dist 3 (-1)) (point_dist 5 (-2)) beam_particle
           tt tt tt tt 5 3 (-2) (-1) (-1) eq_refl eq_refl eq_refl eq_refl).
Defined.

(** X8. Beam search cannot use a [Geometric]: whatever its rate and the
    beam index, and whether or not the module has numpy bound to [np],
    [sample] in beam mode raises [TypeError] when the distribution it takes
    [argmax] of is a [Geometric], as the target without a proposal or as
    the proposal, and the particle and the state of the distributions are
    left as they were. *)
Theorem geometric_beam_raises {St W : Type}
    (np : option (Numpy W))
    (g : Geometric.t) (target : Distribution.t Z W) (self : Model St) (w : W) :
  mode self = "beam" ->
  let gd := Geometric.as_distribution_in np g in
  sample gd None (self, w) = (Raise TypeError, (self, w)) /\
  sample target (Some gd) (self, w) = (Raise TypeError, (self, w)).
Proof.
  intros Hmode. cbv zeta. unfold sample. run_monad. rewrite Hmode.
  split; reflexivity.
Qed.

Lemma geometric_beam_raises_witness :
  sample (Geometric.as_distribution (Geometric.mk 0.25))
         None (beam_particle, tt)
  = (Raise TypeError, (beam_particle, tt)).
Proof.
  exact (proj1 (geometric_beam_raises Geometric.module_np
                  (Geometric.mk 0.25) (point_dist 1 (-1)) beam_particle tt
                  eq_refl)).
Defined.

Ltac run_coro :=
  unfold sample_async, observe_async, await, on_self,
    mbind, Coro_bind, mret, Coro_ret; cbn.

(** X9. The two protocols agree. For distributions whose asynchronous
    methods are their synchronous ones, [sample_async] driven to completion
    gives what [sample] gives on a particle that is not in beam mode: the
    same value or exception, the same particle and the same state of the
    distributions; and [observe_async] gives what [observe] gives, in
    either mode. *)
Theorem async_agrees_with_sync {St V W : Type}
    (d : Distribution.t V W) (proposal : option (Distribution.t V W)) (x : V)
    (self : Model St) (w : W) :
  async_is_sync d ->
  (forall prop, proposal = Some prop -> async_is_sync prop) ->
  String.eqb (mode self) "beam" = false ->
  run_until_complete (sample_async d proposal) (self, w)
  = sample d proposal (self, w) /\
  run_until_complete (observe_async d x) (self, w) = observe d x (self, w).
Proof.
  intros [Hs Hl] Hprop Hmode. split.
  - unfold sample. run_monad. rewrite Hmode. destruct proposal as [prop |].
    + destruct (Hprop prop eq_refl) as [Hps _]. run_coro. rewrite Hps, Hl.
      destruct (Distribution.sample prop w) as [[[x0 q] | e] w1]; cbn;
        [| reflexivity].
      destruct (Distribution.log_prob d x0 w1) as [[p | e] w2]; reflexivity.
    + run_coro. rewrite Hs.
      destruct (Distribution.sample d w) as [[[x0 q] | e] w1]; reflexivity.
  - unfold observe. run_monad. run_coro. rewrite Hl.
    destruct (Distribution.log_prob d x w) as [[p | e] w1]; reflexivity.
Qed.

Lemma async_agrees_with_sync_witness :
  run_until_complete (St := unit)
    (sample_async (point_dist 3 (-1)) (Some (point_dist 5 (-2))))
    (Model_init tt, tt)
  = sample (point_dist 3 (-1)) (Some (point_dist 5 (-2))) (Model_init tt, tt).
Proof.
  refine (proj1 (async_agrees_with_sync
                   (point_dist 3 (-1)) (Some (point_dist 5 (-2)))
                   3 (Model_init tt) tt (conj eq_refl eq_refl) _ eq_refl)).
  intros prop [= <-]. exact (conj eq_refl eq_refl).
Defined.

(** X10. [sample_async] never looks at the particle: run on two particles
    from the same state of the distributions it returns the same value or
    exception and leaves the distributions in the same state, and it either
    adds one and the same amount to both weights or leaves both particles
    as they were. In particular it does no beam search on a particle in
    beam mode. *)
Theorem sample_async_ignores_particle {St V W : Type}
    (d : Distribution.t V W) (proposal : option (Distribution.t V W))
    (self self' : Model St) (w : W) :
  let r := run_until_complete (sample_async d proposal) (self, w) in
  let r' := run_until_complete (sample_async d proposal) (self', w) in
  fst r = fst r' /\
  (snd r).2 = (snd r').2 /\
  ((exists amount, (snd r).1 = score amount self /\
                   (snd r').1 = score amount self') \/
   ((snd r).1 = self /\ (snd r').1 = self')).
Proof.
  cbv zeta. destruct proposal as [prop |]; run_coro.
  - destruct (Distribution.sample_async prop w) as [[[x0 q] | e] w1]; cbn;
      [| auto].
    destruct (Distribution.log_prob_async d x0 w1) as [[p | e] w2]; cbn;
      [| auto].
    split; [reflexivity | split; [reflexivity |]]. left. eauto.
  - destruct (Distribution.sample_async d w) as [[[x0 q] | e] w1]; cbn; auto.
Qed.

Lemma cond_Zopp_sub_diag (s : bool) (z : Z) : (cond_Zopp s z - cond_Zopp s z)%Z = 0%Z.
Proof. lia. Qed.

(** [q - q] is [+0.0] for every finite [q]. *)
Lemma sub_diag (q : float) : is_finite q = true -> (q - q)%float = 0%float.
Proof.
  unfold is_finite. intros H. apply Prim2SF_inj. rewrite sub_spec.
  change (Prim2SF 0) with (S754_zero false).
  destruct (Prim2SF q) as [s | s | | s m e]; try discriminate H.
  - destruct s; reflexivity.
  - unfold SF64sub, SFsub. rewrite Z.min_id, cond_Zopp_sub_diag. reflexivity.
Qed.

(** [w + 0.0] is [w] unless [w] is [-0.0]. *)
Lemma add_zero_r (w : float) : is_neg_zero w = false -> (w + 0)%float = w.
Proof.
  unfold is_neg_zero. intros H. apply Prim2SF_inj. rewrite add_spec.
  change (Prim2SF 0) with (S754_zero false).
  destruct (Prim2SF w) as [[] | s | | s m e]; try reflexivity; discriminate H.
Qed.

(** X11. A proposal that reports, for the value it draws, the
    log-probability the target gives that value (as when the target is its
    own proposal) costs nothing: if that log-probability is finite, [sample]
    in sample mode returns the value and leaves the particle exactly as it
    was, the correction being [+0.0] (the weight is assumed not to be
    [-0.0], which adding [+0.0] would turn into [+0.0]). *)
Theorem self_proposal_neutral {St V W : Type}
    (d prop : Distribution.t V W) (self : Model St) (w w1 w2 : W)
    (x : V) (q : float) :
  mode self = "sample" ->
  Distribution.sample prop w = (Ok (x, q), w1) ->
  Distribution.log_prob d x w1 = (Ok q, w2) ->
  is_finite q = true ->
  is_neg_zero (weight self) = false ->
  sample d (Some prop) (self, w) = (Ok x, (self, w2)).
Proof.
  intros Hmode Hs Hl Hq Hw. unfold sample. run_monad. rewrite Hmode. cbn.
  rewrite Hs. cbn. rewrite Hl. unfold score.
  rewrite sub_diag, add_zero_r, set_weight_same by assumption. reflexivity.
Qed.

Lemma self_proposal_neutral_witness :
  sample (point_dist 1 (-2)) (Some (point_dist 1 (-2)))
    (score (-3) (Model_init tt), tt)
  = (Ok 1, (score (-3) (Model_init tt), tt)).
Proof.
  exact (self_proposal_neutral (point_dist 1 (-2)) (point_dist 1 (-2))
           (score (-3) (Model_init tt)) tt tt tt 1 (-2)
           eq_refl eq_refl eq_refl eq_refl eq_refl).
Defined.

(** ** TokenCategorical, continued *)

Lemma py_index_nonneg {A} (l : list A) (i : Z) (dflt : A) :
  0 <= i < Z.of_nat (length l) -> py_index l i = Ok (nth (Z.to_nat i) l dflt).
Proof.
  intros Hi. unfold py_index.
  destruct (Z.ltb_spec i 0); [lia |].
  destruct (Z.ltb_spec i 0); [lia |].
  destruct (Z.leb_spec (Z.of_nat (length l)) i); [lia |]. cbn.
  rewrite (nth_error_nth' l dflt) by lia. reflexivity.
Qed.

Lemma py_index_negative {A} (l : list A) (i : Z) (dflt : A) :
  - Z.of_nat (length l) <= i < 0 ->
  py_index l i = Ok (nth (Z.to_nat (Z.of_nat (length l) + i)) l dflt).
Proof.
  intros Hi. unfold py_index.
  destruct (Z.ltb_spec i 0); [| lia].
  destruct (Z.ltb_spec (Z.of_nat (length l) + i) 0); [lia |].
  destruct (Z.leb_spec (Z.of_nat (length l)) (Z.of_nat (length l) + i)); [lia |].
  cbn. rewrite (nth_error_nth' l dflt) by lia. reflexivity.
Qed.

Lemma py_index_out_of_range {A} (l : list A) (i : Z) :
  i < - Z.of_nat (length l) \/ Z.of_nat (length l) <= i ->
  py_index l i = Raise IndexError.
Proof.
  intros Hi. unfold py_index.
  destruct (Z.ltb_spec i 0).
  - destruct (Z.ltb_spec (Z.of_nat (length l) + i) 0); [reflexivity | lia].
  - destruct (Z.ltb_spec i 0); [lia |].
    destruct (Z.leb_spec (Z.of_nat (length l)) i); [reflexivity | lia].
Qed.

(** X12. [TokenCategorical.log_prob] answers for a token id in
    [0 .. len-1] with that token's entry of [log_probs]; a negative id down
    to [-len] is not refused but counted from the end ([-1] is the last
    token); any other id raises [IndexError]. *)
Theorem log_prob_index_bounds (self : TokenCategorical.t)
    (value : TokenCategorical.Token) :
  let n := Z.of_nat (length (TokenCategorical.log_probs self)) in
  let i := TokenCategorical.token_id value in
  (0 <= i < n ->
   TokenCategorical.log_prob self value
   = Ok (nth (Z.to_nat i) (TokenCategorical.log_probs self) nan)) /\
  (- n <= i < 0 ->
   TokenCategorical.log_prob self value
   = Ok (nth (Z.to_nat (n + i)) (TokenCategorical.log_probs self) nan)) /\
  (i < - n \/ n <= i ->
   TokenCategorical.log_prob self value = Raise IndexError).
Proof.
  cbv zeta. unfold TokenCategorical.log_prob. split; [| split].
  - apply py_index_nonneg.
  - apply py_index_negative.
  - apply py_index_out_of_range.
Qed.

Lemma log_prob_index_bounds_witness :
  TokenCategorical.log_prob cat3 (TokenCategorical.mkToken lm3 (-1) "c")
  = Ok (-0x1.62e42fefa39efp+0)%float /\
  TokenCategorical.log_prob cat3 (TokenCategorical.mkToken lm3 3 "d")
  = Raise IndexError.
Proof.
  pose proof (log_prob_index_bounds cat3
                (TokenCategorical.mkToken lm3 (-1) "c")) as H1.
  pose proof (log_prob_index_bounds cat3
                (TokenCategorical.mkToken lm3 3 "d")) as H2.
  cbv zeta in H1, H2. destruct H1 as (_ & H1 & _). destruct H2 as (_ & _ & H2).
  split; [apply H1; cbn; lia | apply H2; cbn; lia].
Defined.

(** X17. A [TokenCategorical] whose construction succeeded serves its whole
    vocabulary, provided [log_softmax] returns as many entries as it is
    given: it holds [vocab_size] log-probabilities, and [log_prob] raises
    nothing for a token id in [0 .. vocab_size-1] but returns that token's
    entry of [log_softmax(logits)]. *)
Theorem constructed_serves_vocabulary
    (log_softmax : list float -> list float)
    (lm : TokenCategorical.LM) (logits : list float)
    (self : TokenCategorical.t) (value : TokenCategorical.Token) :
  (forall l, length (log_softmax l) = length l) ->
  TokenCategorical.init log_softmax lm logits = Ok self ->
  0 <= TokenCategorical.token_id value < TokenCategorical.vocab_size lm ->
  Z.of_nat (length (TokenCategorical.log_probs self))
  = TokenCategorical.vocab_size lm /\
  TokenCategorical.log_prob self value
  = Ok (value_at (log_softmax logits) (TokenCategorical.token_id value)).
Proof.
  intros Hlen Hinit Hid. unfold TokenCategorical.init in Hinit.
  destruct (Z.eqb_spec (TokenCategorical.vocab_size lm)
              (Z.of_nat (length logits))) as [Hv | Hv];
    cbn in Hinit; [| discriminate].
  injection Hinit as <-. cbn [TokenCategorical.log_probs].
  assert (Hn : Z.of_nat (length (log_softmax logits))
               = TokenCategorical.vocab_size lm) by (rewrite Hlen; lia).
  split; [exact Hn |].
  unfold TokenCategorical.log_prob. cbn [TokenCategorical.log_probs].
  now rewrite (py_index_nonneg _ _ nan) by lia.
Qed.

Lemma constructed_serves_vocabulary_witness :
  TokenCategorical.log_prob cat3 (TokenCategorical.mkToken lm3 2 "c")
  = Ok (-0x1.62e42fefa39efp+0)%float.
Proof.
  exact (proj2 (constructed_serves_vocabulary (fun l => l) lm3
                  (TokenCategorical.log_probs cat3) cat3
                  (TokenCategorical.mkToken lm3 2 "c")
                  (fun l => eq_refl) eq_refl
                  (conj (Z.le_0_2) (eq_refl : (2 ?= 3) = Lt)))).
Defined.

(** X18. [TokenCategorical.sample] pairs the token it draws with the
    log-probability [log_prob] gives that token: when [np.random.choice]
    returns an id [n] of [0 .. len-1], the result is the token [n] with
    [log_probs[n]], and [log_prob] of that token is the same number. *)
Theorem sample_pairs_log_prob {W : Type}
    (np_exp : list float -> list float)
    (np_random_choice : Z -> list float -> M W Z)
    (self : TokenCategorical.t) (w w' : W) (n : Z) :
  np_random_choice (Z.of_nat (length (TokenCategorical.log_probs self)))
                   (np_exp (TokenCategorical.log_probs self)) w = (Ok n, w') ->
  0 <= n < Z.of_nat (length (TokenCategorical.log_probs self)) ->
  let tok := TokenCategorical.mkToken (TokenCategorical.lm self) n
               (TokenCategorical.convert_ids_to_tokens
                  (TokenCategorical.lm self) n) in
  TokenCategorical.sample np_exp np_random_choice self w
  = (Ok (tok, value_at (TokenCategorical.log_probs self) n), w') /\
  TokenCategorical.log_prob self tok
  = Ok (value_at (TokenCategorical.log_probs self) n).
Proof.
  intros Hchoice Hn. cbv zeta. unfold TokenCategorical.sample,
    TokenCategorical.log_prob. run_monad. rewrite Hchoice. cbn.
  rewrite (py_index_nonneg _ _ nan Hn). split; reflexivity.
Qed.

Lemma sample_pairs_log_prob_witness :
  TokenCategorical.sample (W := unit) (fun l => l) (fun _ _ => mret 1) cat3 tt
  = (Ok (TokenCategorical.mkToken lm3 1 "b", (-0x1.e148a1a2726cep-2)%float), tt).
Proof.
  exact (proj1 (sample_pairs_log_prob (W := unit) (fun l => l)
                  (fun _ _ => mret 1) cat3 tt tt 1 eq_refl
                  (conj (ltac:(discriminate) : (0 ?= 1) <> Gt)
                        (eq_refl : (1 ?= 3) = Lt)))).
Defined.

(** ** Cloning, continued *)

Section ForkFacts.

Local Open Scope list_scope.

Context {Obj : Type}.
Implicit Types (h : gmap loc Obj) (memo : gmap loc loc) (d : pydict).

Lemma setattr_new d k v : k ∉ d.*1 -> setattr d k v = d ++ [(k, v)].
Proof.
  induction d as [| [k' v'] d IH]; cbn; [reflexivity |].
  intros Hk. apply not_elem_of_cons in Hk as [Hne Hk].
  destruct (String.eqb_spec k' k); [congruence |]. now rewrite IH.
Qed.

Lemma copy_deepcopy_injective v memo h v' memo' h' :
  copy_deepcopy v memo h = (v', memo', h') ->
  memo_injective memo h -> memo_injective memo' h'.
Proof.
  intros Hcopy [Hdom Hinj]. destruct v as [a | l]; cbn in Hcopy.
  - injection Hcopy as <- <- <-. now split.
  - destruct (memo !! l) as [l1 |] eqn:Hl.
    { injection Hcopy as <- <- <-. now split. }
    destruct (h !! l) as [o |] eqn:Ho.
    2: { injection Hcopy as <- <- <-. now split. }
    injection Hcopy as <- <- <-.
    assert (Hfresh : h !! fresh (dom h) = None)
      by (apply not_elem_of_dom; apply is_fresh).
    assert (Hne : forall l0 l0', memo !! l0 = Some l0' -> l0' <> fresh (dom h)).
    { intros l0 l0' H0 ->. destruct (Hdom _ _ H0) as [o0 Ho0]. congruence. }
    split.
    + intros l0 l0' H0. destruct (decide (l0 = l)) as [-> | Hl0].
      * rewrite lookup_insert_eq in H0. injection H0 as <-.
        rewrite lookup_insert_eq. eauto.
      * rewrite lookup_insert_ne in H0 by congruence.
        rewrite lookup_insert_ne by (apply not_eq_sym; eapply Hne; eauto).
        eauto.
    + intros l1 l2 l' H1 H2.
      destruct (decide (l1 = l)) as [-> | Hl1],
               (decide (l2 = l)) as [-> | Hl2]; [reflexivity | | |].
      * rewrite lookup_insert_eq in H1. injection H1 as <-.
        rewrite lookup_insert_ne in H2 by congruence.
        now destruct (Hne _ _ H2).
      * rewrite lookup_insert_eq in H2. injection H2 as <-.
        rewrite lookup_insert_ne in H1 by congruence.
        now destruct (Hne _ _ H1).
      * rewrite lookup_insert_ne in H1, H2 by congruence. eauto.
Qed.

Lemma deepcopy_items_injective (immutable : gset string) items :
  forall cpy memo h cpy' memo' h',
    deepcopy_items immutable items cpy memo h = (cpy', memo', h') ->
    memo_injective memo h -> memo_injective memo' h'.
Proof.
  induction items as [| [k0 v0] rest IH];
    intros cpy memo h cpy' memo' h' Hrun Hinj; cbn in Hrun.
  - now injection Hrun as <- <- <-.
  - destruct (decide (k0 ∈ immutable)); [eapply IH; eassumption |].
    destruct (copy_deepcopy v0 memo h) as [[v1 memo1] h1] eqn:Hcopy.
    eapply IH; [exact Hrun |]. eapply copy_deepcopy_injective; eassumption.
Qed.

Lemma deepcopy_items_names (immutable : gset string) items :
  forall cpy memo h cpy' memo' h',
    deepcopy_items immutable items cpy memo h = (cpy', memo', h') ->
    NoDup (cpy.*1 ++ items.*1) ->
    cpy'.*1 = cpy.*1 ++ items.*1.
Proof.
  induction items as [| [k0 v0] rest IH];
    intros cpy memo h cpy' memo' h' Hrun Hnodup; cbn in Hrun.
  - injection Hrun as <- <- <-. now rewrite app_nil_r.
  - assert (Hk0 : k0 ∉ cpy.*1).
    { apply NoDup_app in Hnodup as (_ & Hdisj & _). intros Hin.
      apply (Hdisj _ Hin). left. }
    assert (Hnodup' : forall v, NoDup ((setattr cpy k0 v).*1 ++ rest.*1)).
    { intros v. rewrite (setattr_new _ _ _ Hk0), fmap_app. cbn.
      now rewrite <- app_assoc. }
    assert (Hnames : forall v, (setattr cpy k0 v).*1 ++ rest.*1
                               = cpy.*1 ++ ((k0, v0) :: rest).*1).
    { intros v. rewrite (setattr_new _ _ _ Hk0), fmap_app. cbn.
      now rewrite <- app_assoc. }
    destruct (decide (k0 ∈ immutable)).
    + rewrite (IH _ _ _ _ _ _ Hrun (Hnodup' v0)). apply Hnames.
    + destruct (copy_deepcopy v0 memo h) as [[v1 memo1] h1] eqn:Hcopy.
      rewrite (IH _ _ _ _ _ _ Hrun (Hnodup' v1)). apply Hnames.
Qed.

Lemma deepcopy_items_nothing (immutable : gset string) items :
  forall cpy memo h,
    nothing_to_copy immutable items = true ->
    NoDup (cpy.*1 ++ items.*1) ->
    deepcopy_items immutable items cpy memo h = (cpy ++ items, memo, h).
Proof.
  induction items as [| [k0 v0] rest IH]; intros cpy memo h Hall Hnodup; cbn.
  - now rewrite app_nil_r.
  - cbn in Hall. apply andb_true_iff in Hall as [H0 Hall].
    assert (Hk0 : k0 ∉ cpy.*1).
    { apply NoDup_app in Hnodup as (_ & Hdisj & _). intros Hin.
      apply (Hdisj _ Hin). left. }
    assert (Hstep : deepcopy_items immutable rest (setattr cpy k0 v0) memo h
                    = (cpy ++ (k0, v0) :: rest, memo, h)).
    { rewrite IH; [| exact Hall |].
      - now rewrite (setattr_new _ _ _ Hk0), <- app_assoc.
      - rewrite (setattr_new _ _ _ Hk0), fmap_app. cbn.
        now rewrite <- app_assoc. }
    destruct (decide (k0 ∈ immutable)) as [Himm | Himm]; [exact Hstep |].
    apply orb_true_iff in H0 as [H0 | H0].
    + apply bool_decide_eq_true in H0. contradiction.
    + cbn in H0. destruct v0 as [a | l]; [exact Hstep | discriminate].
Qed.

End ForkFacts.

Lemma memo_injective_empty {Obj : Type} (h : gmap loc Obj) :
  memo_injective ∅ h.
Proof. split; intros *; now rewrite lookup_empty. Qed.

(** X19. The clone has the attributes of the original, under the same names
    and in the same order. *)
Theorem fork_keeps_names {Obj : Type}
    (immutable : gset string) (self : pydict) (h : gmap loc Obj) :
  unique_names self = true ->
  (fork immutable self h).1.*1 = self.*1.
Proof.
  intros Huniq. apply bool_decide_eq_true in Huniq.
  unfold fork, Model_deepcopy.
  destruct (deepcopy_items immutable self [] ∅ h) as [[cpy memo'] h'] eqn:Hrun.
  cbn [fst]. exact (deepcopy_items_names _ _ _ _ _ _ _ _ Hrun Huniq).
Qed.

Lemma fork_keeps_names_witness :
  (fork {["ctx"]} particle4 heap2).1.*1
  = ["weight"; "finished"; "mode"; "beam_idx"; "force_eos"; "twist_amount";
     "ctx"; "toks"; "alias"].
Proof. exact (fork_keeps_names {["ctx"]} particle4 heap2 eq_refl). Defined.

(** X20. Forking keeps the aliasing among the attributes that are copied:
    two attributes that refer to one object refer to one copy in the clone,
    and two that refer to different objects refer to different copies. *)
Theorem fork_preserves_aliasing {Obj : Type}
    (immutable : gset string) (self : pydict) (h : gmap loc Obj)
    (k1 k2 : string) (l1 l2 : loc) :
  unique_names self = true ->
  closed h self = true ->
  k1 ∉ immutable -> k2 ∉ immutable ->
  getattr self k1 = Some (Ref l1) ->
  getattr self k2 = Some (Ref l2) ->
  exists l1' l2',
    getattr (fork immutable self h).1 k1 = Some (Ref l1') /\
    getattr (fork immutable self h).1 k2 = Some (Ref l2') /\
    (l1' = l2' <-> l1 = l2).
Proof.
  intros Huniq Hclosed Hk1 Hk2 H1 H2. apply bool_decide_eq_true in Huniq.
  unfold fork, Model_deepcopy.
  destruct (deepcopy_items immutable self [] ∅ h) as [[cpy memo'] h'] eqn:Hrun.
  cbn [fst].
  assert (Hinv0 : memo_inv h ∅ h).
  { split; [reflexivity |]. intros l l' H. now rewrite lookup_empty in H. }
  destruct (deepcopy_items_inv h _ _ _ _ _ _ _ _ Hrun Hinv0
              (fun k l => closed_lookup h self k l Hclosed) Huniq)
    as (_ & _ & _ & Hin).
  destruct (deepcopy_items_injective _ _ _ _ _ _ _ _ Hrun
              (memo_injective_empty h)) as [_ Hinj].
  destruct (Hin _ _ (getattr_Some_elem _ _ _ H1)) as (v1 & Hv1 & Hc1).
  destruct (Hin _ _ (getattr_Some_elem _ _ _ H2)) as (v2 & Hv2 & Hc2).
  rewrite decide_False in Hc1 by exact Hk1.
  rewrite decide_False in Hc2 by exact Hk2.
  cbn in Hc1, Hc2. destruct Hc1 as (l1' & -> & Hm1), Hc2 as (l2' & -> & Hm2).
  exists l1', l2'. split; [exact Hv1 | split; [exact Hv2 |]]. split.
  - intros <-. eapply Hinj; eassumption.
  - intros <-. congruence.
Qed.

Lemma fork_preserves_aliasing_witness :
  exists l1' l2',
    getattr (fork immutable_properties particle4 heap2).1 "toks"
    = Some (Ref l1') /\
    getattr (fork immutable_properties particle4 heap2).1 "alias"
    = Some (Ref l2') /\
    (l1' = l2' <-> 1%nat = 1%nat).
Proof.
  apply (fork_preserves_aliasing immutable_properties particle4 heap2
           "toks" "alias" 1%nat 1%nat eq_refl eq_refl);
    [set_solver | set_solver | reflexivity | reflexivity].
Defined.

(** X21. When every attribute is named in [immutable_properties()] or holds
    an atom, as for a particle that has only the attributes of
    [Model.__init__], forking copies no object: the clone's [__dict__]
    equals the original's and the heap is as before. *)
Theorem fork_nothing_to_copy {Obj : Type}
    (immutable : gset string) (self : pydict) (h : gmap loc Obj) :
  unique_names self = true ->
  nothing_to_copy immutable self = true ->
  fork immutable self h = (self, h).
Proof.
  intros Huniq Hall. apply bool_decide_eq_true in Huniq.
  unfold fork, Model_deepcopy.
  now rewrite (deepcopy_items_nothing immutable self [] ∅ h Hall Huniq).
Qed.

Lemma fork_nothing_to_copy_witness :
  fork immutable_properties (Model_dict (Model_init [])) heap2
  = (Model_dict (Model_init []), heap2) /\
  fork {["ctx"; "toks"; "alias"]} particle4 heap2 = (particle4, heap2).
Proof.
  split.
  - exact (fork_nothing_to_copy immutable_properties
             (Model_dict (Model_init [])) heap2 eq_refl eq_refl).
  - exact (fork_nothing_to_copy {["ctx"; "toks"; "alias"]} particle4 heap2
             eq_refl eq_refl).
Defined.
